(** * malloc_count: the allocation-accounting layer of [malloc_count.c]

    A shallow embedding of the interposed entry points ([malloc],
    [aligned_alloc], [posix_memalign], [memalign], [free], [calloc],
    [realloc]), of the statistics ([inc_count], [dec_count] and the
    accessors) and of the header that is prepended to every block.

    Conventions of the embedding:
    - a [size_t] and a pointer are a [Z] in [0, 2^64); a [long long] is a
      [Z] in [-2^63, 2^63); every C operation is followed by its wrap-around;
    - memory is byte addressed: a finite map from addresses to bytes, a byte
      that was never written reads as 0; a [size_t] is stored little endian
      in 8 bytes;
    - the globals of the C file are the fields of [state];
    - the real allocator is outside the program: what it answers is an
      argument [r] of the entry point that calls it, and each call to it is
      recorded, with its arguments and answer, in the [trace] of the state;
    - the C library that [init] calls ([setlocale], [dlsym], [dlerror]) is
      outside the program too, and calls back into the entry points: the
      calls it makes are arguments of [init];
    - [exit(EXIT_FAILURE)] runs the destructor [finish] before the process
      ends;
    - [fprintf(stderr, ...)] and a call of the registered callback are
      recorded in the same [trace], most recent event first;
    - [log_operations] and [log_operations_init_heap] are the constant 0 in
      the source, so the log lines they guard are never printed, and
      [THREAD_SAFE_GCC_INTRINSICS] is 0, so the [#else] branches are the
      code. *)

From stdpp Require Import gmap list.
From Stdlib Require Import ZArith Lia.

Local Open Scope Z_scope.

(** ** Machine integers *)

Definition SIZE_MAX : Z := 2 ^ 64 - 1.
Definition LLONG_MAX : Z := 2 ^ 63 - 1.

(** Conversion to [size_t]: reduction modulo 2^64. *)
Definition to_size_t (x : Z) : Z := x mod 2 ^ 64.

(** Conversion to [long long]: the two's complement value of the low 64
    bits. *)
Definition to_long_long (x : Z) : Z := (x + 2 ^ 63) mod 2 ^ 64 - 2 ^ 63.

Definition is_size_t (x : Z) : Prop := 0 <= x < 2 ^ 64.
Definition is_long_long (x : Z) : Prop := - 2 ^ 63 <= x < 2 ^ 63.

(** [(char* )p + n] and [(char* )p - n]. *)
Definition ptr_add (p n : Z) : Z := to_size_t (p + n).
Definition ptr_sub (p n : Z) : Z := to_size_t (p - n).

(** ** Byte-addressed memory *)

Fixpoint le_bytes (n : nat) (v : Z) : list Z :=
  match n with
  | O => []
  | S k => v mod 256 :: le_bytes k (v / 256)
  end.

Fixpoint le_value (bs : list Z) : Z :=
  match bs with
  | [] => 0
  | b :: rest => b + 256 * le_value rest
  end.

(** A cell of the map holds a byte: what is read is taken modulo 256. *)
Definition read_byte (m : gmap Z Z) (a : Z) : Z := default 0 (m !! a) mod 256.

Fixpoint read_bytes (n : nat) (a : Z) (m : gmap Z Z) : list Z :=
  match n with
  | O => []
  | S k => read_byte m a :: read_bytes k (a + 1) m
  end.

Fixpoint write_bytes (a : Z) (bs : list Z) (m : gmap Z Z) : gmap Z Z :=
  match bs with
  | [] => m
  | b :: rest => write_bytes (a + 1) rest (<[a := b]> m)
  end.

(** [*(size_t* )a] as an rvalue and as an lvalue. *)
Definition load_size_t (m : gmap Z Z) (a : Z) : Z := le_value (read_bytes 8 a m).
Definition store_size_t (m : gmap Z Z) (a v : Z) : gmap Z Z :=
  write_bytes a (le_bytes 8 v) m.

(** [memset(p, c, n)] and [memcpy(dst, src, n)]. *)
Definition memset (p c n : Z) (m : gmap Z Z) : gmap Z Z :=
  write_bytes p (replicate (Z.to_nat n) (c mod 256)) m.
Definition memcpy (dst src n : Z) (m : gmap Z Z) : gmap Z Z :=
  write_bytes dst (read_bytes (Z.to_nat n) src m) m.

(** ** Constants of the source *)

(** [static const size_t alignment = 32]: the size of the header. *)
Definition alignment : Z := 32.
(** [sizeof(size_t)] *)
Definition sizeof_size_t : Z := 8.
(** [static const size_t sentinel = 0xDEADC0DE] *)
Definition sentinel : Z := 0xDEADC0DE.
(** [#define INIT_HEAP_SIZE 1024*1024] *)
Definition INIT_HEAP_SIZE : Z := 1024 * 1024.

(** ** Observable events *)

Inductive event : Type :=
  | EvRealMalloc (n ret : Z)              (* real_malloc(n) = ret *)
  | EvRealAlignedAlloc (al n ret : Z)     (* real_aligned_alloc(al, n) = ret *)
  | EvRealFree (p : Z)                    (* real_free(p) *)
  | EvRealRealloc (p n ret : Z)           (* real_realloc(p, n) = ret *)
  | EvCallback (cb cookie cur : Z)        (* callback(callback_cookie, curr) *)
  | DiagInitHeapFull                      (* init heap full *)
  | DiagAlignedAllocInitHeap              (* aligned_alloc in init heap *)
  | DiagFreeNoRealFree (p : Z)            (* free outside init heap and without real_free *)
  | DiagFreeNoSentinel (p : Z)            (* free(%p) has no sentinel *)
  | DiagReallocNoSentinel (p : Z)         (* realloc(%p) has no sentinel *)
  | DiagDlsymError                        (* the error line of init *)
  | DiagExiting (tot pk cur : Z).         (* exiting, total, peak, current *)

(** ** The globals *)

Record state : Type := mkState {
  real_malloc : bool;          (* real_malloc != NULL *)
  real_aligned_alloc : bool;   (* real_aligned_alloc != NULL *)
  real_free : bool;            (* real_free != NULL *)
  real_realloc : bool;         (* real_realloc != NULL *)
  init_heap : Z;               (* the address of the array init_heap *)
  init_heap_use : Z;
  peak : Z;
  curr : Z;
  total : Z;
  num_allocs : Z;
  callback : Z;                (* 0 is NULL *)
  callback_cookie : Z;
  mem : gmap Z Z;
  trace : list event
}.

Definition set_init_heap_use (v : Z) (st : state) : state :=
  mkState (real_malloc st) (real_aligned_alloc st) (real_free st)
    (real_realloc st) (init_heap st) v (peak st) (curr st) (total st)
    (num_allocs st) (callback st) (callback_cookie st) (mem st) (trace st).

Definition set_peak (v : Z) (st : state) : state :=
  mkState (real_malloc st) (real_aligned_alloc st) (real_free st)
    (real_realloc st) (init_heap st) (init_heap_use st) v (curr st) (total st)
    (num_allocs st) (callback st) (callback_cookie st) (mem st) (trace st).

Definition set_curr (v : Z) (st : state) : state :=
  mkState (real_malloc st) (real_aligned_alloc st) (real_free st)
    (real_realloc st) (init_heap st) (init_heap_use st) (peak st) v (total st)
    (num_allocs st) (callback st) (callback_cookie st) (mem st) (trace st).

Definition set_total (v : Z) (st : state) : state :=
  mkState (real_malloc st) (real_aligned_alloc st) (real_free st)
    (real_realloc st) (init_heap st) (init_heap_use st) (peak st) (curr st) v
    (num_allocs st) (callback st) (callback_cookie st) (mem st) (trace st).

Definition set_num_allocs (v : Z) (st : state) : state :=
  mkState (real_malloc st) (real_aligned_alloc st) (real_free st)
    (real_realloc st) (init_heap st) (init_heap_use st) (peak st) (curr st)
    (total st) v (callback st) (callback_cookie st) (mem st) (trace st).

Definition set_mem (v : gmap Z Z) (st : state) : state :=
  mkState (real_malloc st) (real_aligned_alloc st) (real_free st)
    (real_realloc st) (init_heap st) (init_heap_use st) (peak st) (curr st)
    (total st) (num_allocs st) (callback st) (callback_cookie st) v (trace st).

(** One more event, in front of the earlier ones. *)
Definition emit (e : event) (st : state) : state :=
  mkState (real_malloc st) (real_aligned_alloc st) (real_free st)
    (real_realloc st) (init_heap st) (init_heap_use st) (peak st) (curr st)
    (total st) (num_allocs st) (callback st) (callback_cookie st) (mem st)
    (e :: trace st).

(** [if (callback) callback(callback_cookie, curr)] *)
Definition run_callback (st : state) : state :=
  if callback st =? 0 then st
  else emit (EvCallback (callback st) (callback_cookie st) (curr st)) st.

(** ** Run-time memory allocation statistics *)

(** [inc_count]: [curr += inc] adds a [size_t] to a [long long]; the sum is
    taken modulo 2^64 and read back as a [long long]. *)
Definition inc_count (inc : Z) (st : state) : state :=
  let st1 := set_curr (to_long_long (curr st + inc)) st in
  let st2 := if peak st1 <? curr st1 then set_peak (curr st1) st1 else st1 in
  let st3 := set_total (to_long_long (total st2 + inc)) st2 in
  let st4 := run_callback st3 in
  set_num_allocs (to_long_long (num_allocs st4 + 1)) st4.

(** [dec_count] *)
Definition dec_count (dec : Z) (st : state) : state :=
  run_callback (set_curr (to_long_long (curr st - dec)) st).

Definition malloc_count_current (st : state) : Z := to_size_t (curr st).
Definition malloc_count_reset_peak (st : state) : state := set_peak (curr st) st.
Definition malloc_count_num_allocs (st : state) : Z := to_size_t (num_allocs st).

Definition malloc_count_set_callback (cb cookie : Z) (st : state) : state :=
  mkState (real_malloc st) (real_aligned_alloc st) (real_free st)
    (real_realloc st) (init_heap st) (init_heap_use st) (peak st) (curr st)
    (total st) (num_allocs st) cb cookie (mem st) (trace st).

(** ** How a call ends *)

(** A call returns a value, or ends the process with [exit(EXIT_FAILURE)]
    (the state is then the one the process ends in, after the destructor
    [finish] has run), or goes through a null pointer. The source never tests what the real
    allocator answers, so when that is NULL the header is stored through
    it; [posix_memalign] stores through the [memptr] of its caller; and
    [realloc] calls [real_realloc] without testing it. These are the null
    pointers the embedding tracks. *)
Inductive outcome (A : Type) : Type :=
  | Ret (v : A) (st : state)
  | Exit (st : state)
  | Fault (st : state).

Arguments Ret {A} v st.
Arguments Exit {A} st.
Arguments Fault {A} st.

Definition bind {A B : Type} (o : outcome A) (k : A -> state -> outcome B)
  : outcome B :=
  match o with
  | Ret v st => k v st
  | Exit st => Exit st
  | Fault st => Fault st
  end.

Notation "'call' x , st <- o ; k" := (bind o (fun x st => k))
  (at level 10, x name, st name, o at level 100, k at level 200).

(** [finish], the destructor: the summary line printed when the process
    ends. *)
Definition finish (st : state) : state :=
  emit (DiagExiting (total st) (peak st) (curr st)) st.

(** [exit(EXIT_FAILURE)]: the process ends, and runs the destructor on its
    way out. *)
Definition exit_failure {A : Type} (st : state) : outcome A :=
  Exit (finish st).

(** ** The header *)

(** The three stores that prepend the header to the block at [ret]:
    the size at offset 0, the extra alignment at offset [sizeof(size_t)],
    the sentinel at offset [alignment - sizeof(size_t)]. *)
Definition write_header (ret size extra : Z) (m : gmap Z Z) : gmap Z Z :=
  let m1 := store_size_t m ret size in
  let m2 := store_size_t m1 (ptr_add ret sizeof_size_t) extra in
  store_size_t m2 (ptr_sub (ptr_add ret alignment) sizeof_size_t) sentinel.

(** The sentinel test of [free] and [realloc] on the header at [p]. *)
Definition sentinel_ok (p : Z) (m : gmap Z Z) : bool :=
  load_size_t m (ptr_sub (ptr_add p alignment) sizeof_size_t) =? sentinel.

(** [(char* )ptr >= init_heap && (char* )ptr <= init_heap + init_heap_use] *)
Definition in_arena (base use ptr : Z) : bool :=
  (base <=? ptr) && (ptr <=? ptr_add base use).
Definition on_init_heap (ptr : Z) (st : state) : bool :=
  in_arena (init_heap st) (init_heap_use st) ptr.

(** ** Exported symbols that overlay the libc functions *)

(** [malloc(size)]; [r] is what [real_malloc] answers. *)
Definition malloc (r : Z) (size : Z) (st : state) : outcome Z :=
  if size =? 0 then Ret 0 st
  else if real_malloc st then
    let st1 := emit (EvRealMalloc (to_size_t (alignment + size)) r) st in
    let ret := r in
    let st2 := inc_count size st1 in
    if ret =? 0 then Fault st2
    else
      let st3 := set_mem (write_header ret size 0 (mem st2)) st2 in
      Ret (ptr_add ret alignment) st3
  else
    if INIT_HEAP_SIZE <? to_size_t (init_heap_use st + alignment + size)
    then exit_failure (emit DiagInitHeapFull st)
    else
      let ret := ptr_add (init_heap st) (init_heap_use st) in
      let st1 :=
        set_init_heap_use (to_size_t (init_heap_use st + (alignment + size))) st in
      let st2 := set_mem (write_header ret size 0 (mem st1)) st1 in
      Ret (ptr_add ret alignment) st2.

(** [aligned_alloc(al, size)]; [r] is what [real_aligned_alloc] answers. *)
Definition aligned_alloc (r : Z) (al size : Z) (st : state) : outcome Z :=
  if size =? 0 then Ret 0 st
  else if negb (real_aligned_alloc st) then
    exit_failure (emit DiagAlignedAllocInitHeap st)
  else
    let extra_alignment := if alignment <=? al then to_size_t (al - alignment) else 0 in
    let st1 :=
      emit (EvRealAlignedAlloc al
              (to_size_t (size + alignment + extra_alignment)) r) st in
    let ret := ptr_add r extra_alignment in
    let st2 := inc_count size st1 in
    if r =? 0 then Fault st2
    else
      let st3 := set_mem (write_header ret size extra_alignment (mem st2)) st2 in
      Ret (ptr_add ret alignment) st3.

(** [posix_memalign(memptr, al, size)]: [*memptr = aligned_alloc(al, size);
    return 0;] *)
Definition posix_memalign (r : Z) (memptr al size : Z) (st : state) : outcome Z :=
  call p, st1 <- aligned_alloc r al size st;
  if memptr =? 0 then Fault st1
  else Ret 0 (set_mem (store_size_t (mem st1) memptr p) st1).

(** [memalign(al, size)] *)
Definition memalign (r : Z) (al size : Z) (st : state) : outcome Z :=
  aligned_alloc r al size st.

(** [free(ptr)] *)
Definition free (ptr : Z) (st : state) : outcome unit :=
  if ptr =? 0 then Ret tt st
  else if on_init_heap ptr st then Ret tt st
  else if negb (real_free st) then Ret tt (emit (DiagFreeNoRealFree ptr) st)
  else
    let ptr1 := ptr_sub ptr alignment in
    let st1 :=
      if sentinel_ok ptr1 (mem st) then st
      else emit (DiagFreeNoSentinel ptr1) st in
    let size := load_size_t (mem st1) ptr1 in
    let extra_alignment := load_size_t (mem st1) (ptr_add ptr1 sizeof_size_t) in
    let ptr2 := ptr_sub ptr1 extra_alignment in
    let st2 := dec_count size st1 in
    Ret tt (emit (EvRealFree ptr2) st2).

(** [calloc(nmemb, size)]: [size *= nmemb] is a [size_t] product. *)
Definition calloc (r : Z) (nmemb size : Z) (st : state) : outcome Z :=
  let size1 := to_size_t (size * nmemb) in
  if size1 =? 0 then Ret 0 st
  else
    call ret, st1 <- malloc r size1 st;
    Ret ret (set_mem (memset ret 0 size1 (mem st1)) st1).

(** What [real_realloc(p, n) = ret] does to the memory of the program: when
    the block moves, its first bytes, up to the smaller of the old and the
    new length, are copied to the new place. The old length is the one
    the block at [p] was requested with, [alignment + oldsize]. *)
Definition real_realloc_copy (p ret oldsize size : Z) (m : gmap Z Z) : gmap Z Z :=
  if (ret =? 0) || (ret =? p) then m
  else memcpy ret p (Z.min (to_size_t (alignment + oldsize))
                           (to_size_t (alignment + size))) m.

(** [realloc(ptr, size)]; [r] is what the real allocator answers:
    [real_malloc] on the paths that go through [malloc], [real_realloc] on
    the last one. *)
Definition realloc (r : Z) (ptr size : Z) (st : state) : outcome Z :=
  if on_init_heap ptr st then
    let ptr1 := ptr_sub ptr alignment in
    let st1 :=
      if sentinel_ok ptr1 (mem st) then st
      else emit (DiagReallocNoSentinel ptr1) st in
    let oldsize := load_size_t (mem st1) ptr1 in
    if size <=? oldsize then
      (* keep old area, just reduce the size *)
      Ret (ptr_add ptr1 alignment)
          (set_mem (store_size_t (mem st1) ptr1 size) st1)
    else
      (* allocate new area and copy data *)
      let ptr2 := ptr_add ptr1 alignment in
      call newptr, st2 <- malloc r size st1;
      let st3 := set_mem (memcpy newptr ptr2 oldsize (mem st2)) st2 in
      call _u, st4 <- free ptr2 st3;
      Ret newptr st4
  else if size =? 0 then
    (* special case size == 0 -> free() *)
    call _u, st1 <- free ptr st;
    Ret 0 st1
  else if ptr =? 0 then
    (* special case ptr == 0 -> malloc() *)
    malloc r size st
  else
    let ptr1 := ptr_sub ptr alignment in
    let st1 :=
      if sentinel_ok ptr1 (mem st) then st
      else emit (DiagFreeNoSentinel ptr1) st in
    let oldsize := load_size_t (mem st1) ptr1 in
    (* extra_alignment = *(size_t* )(ptr + sizeof(size_t)) = 0 *)
    let st2 :=
      set_mem (store_size_t (mem st1) (ptr_add ptr1 sizeof_size_t) 0) st1 in
    let extra_alignment := 0 in
    let st3 := inc_count size (dec_count oldsize st2) in
    if negb (real_realloc st3) then Fault st3
    else
      let n := to_size_t (size + alignment + extra_alignment) in
      let newptr := r in
      let st4 :=
        set_mem (real_realloc_copy ptr1 newptr oldsize size (mem st3))
                (emit (EvRealRealloc ptr1 n newptr) st3) in
      if newptr =? 0 then Fault st4
      else
        Ret (ptr_add (ptr_add newptr alignment) extra_alignment)
            (set_mem (store_size_t (mem st4) newptr size) st4).

(** ** Calls that arrive from elsewhere *)

(** One call of an entry point, with what the real allocator answers when
    the call reaches it. *)
Inductive entry_call : Type :=
  | CallMalloc (r size : Z)
  | CallAlignedAlloc (r al size : Z)
  | CallPosixMemalign (r memptr al size : Z)
  | CallMemalign (r al size : Z)
  | CallFree (ptr : Z)
  | CallCalloc (r nmemb size : Z)
  | CallRealloc (r ptr size : Z).

Definition exec (c : entry_call) (st : state) : outcome unit :=
  match c with
  | CallMalloc r size => call _p, st1 <- malloc r size st; Ret tt st1
  | CallAlignedAlloc r al size =>
      call _p, st1 <- aligned_alloc r al size st; Ret tt st1
  | CallPosixMemalign r memptr al size =>
      call _p, st1 <- posix_memalign r memptr al size st; Ret tt st1
  | CallMemalign r al size => call _p, st1 <- memalign r al size st; Ret tt st1
  | CallFree ptr => free ptr st
  | CallCalloc r nmemb size => call _p, st1 <- calloc r nmemb size st; Ret tt st1
  | CallRealloc r ptr size => call _p, st1 <- realloc r ptr size st; Ret tt st1
  end.

Fixpoint exec_all (cs : list entry_call) (st : state) : outcome unit :=
  match cs with
  | [] => Ret tt st
  | c :: rest => call _u, st1 <- exec c st; exec_all rest st1
  end.

(** ** [init], the constructor *)

Definition set_real (rm ra rr rf : bool) (st : state) : state :=
  mkState rm ra rf rr (init_heap st) (init_heap_use st) (peak st) (curr st)
    (total st) (num_allocs st) (callback st) (callback_cookie st) (mem st)
    (trace st).

Definition set_real_malloc (b : bool) (st : state) : state :=
  set_real b (real_aligned_alloc st) (real_realloc st) (real_free st) st.
Definition set_real_aligned_alloc (b : bool) (st : state) : state :=
  set_real (real_malloc st) b (real_realloc st) (real_free st) st.
Definition set_real_realloc (b : bool) (st : state) : state :=
  set_real (real_malloc st) (real_aligned_alloc st) b (real_free st) st.
Definition set_real_free (b : bool) (st : state) : state :=
  set_real (real_malloc st) (real_aligned_alloc st) (real_realloc st) b st.

(** [init] calls into the C library: [setlocale], [dlerror], [dlsym]. These
    are outside the program, but they allocate, and their calls arrive at
    the entry points of this file while [init] is running. What the
    library does in one lookup [real_f = dlsym(RTLD_NEXT, "f")] followed by
    [dlerror()] is given by: the calls [dlsym] makes, whether it found the
    symbol (a pointer that is not null), the calls [dlerror] makes, and
    whether [dlerror] reports an error. *)
Record symbol_lookup : Type := mkLookup {
  dlsym_calls : list entry_call;
  dlsym_found : bool;
  dlerror_calls : list entry_call;
  dlerror_error : bool
}.

(** [real_f = dlsym(RTLD_NEXT, "f"); if ((error = dlerror()) != NULL)
    { fprintf(...); exit(EXIT_FAILURE); }] *)
Definition resolve (l : symbol_lookup) (assign : bool -> state -> state) (st : state)
  : outcome unit :=
  call _u, st1 <- exec_all (dlsym_calls l) st;
  let st2 := assign (dlsym_found l) st1 in
  call _v, st3 <- exec_all (dlerror_calls l) st2;
  if dlerror_error l then exit_failure (emit DiagDlsymError st3)
  else Ret tt st3.

(** [init]: [locale_calls] are the calls that [setlocale(LC_NUMERIC, "")]
    and the first [dlerror()] make; then the four lookups in the order of
    the source. *)
Definition init (locale_calls : list entry_call)
    (l_malloc l_aligned_alloc l_realloc l_free : symbol_lookup) (st : state)
  : outcome unit :=
  call _u, st0 <- exec_all locale_calls st;
  call _v, st1 <- resolve l_malloc set_real_malloc st0;
  call _w, st2 <- resolve l_aligned_alloc set_real_aligned_alloc st1;
  call _x, st3 <- resolve l_realloc set_real_realloc st2;
  resolve l_free set_real_free st3.

(** A lookup that finds its symbol while the library allocates nothing. *)
Definition found_quietly : symbol_lookup := mkLookup [] true [] false.

(** The resolver is ready: [init] has returned. *)
Definition resolver_ready (st : state) : Prop :=
  real_malloc st = true /\ real_aligned_alloc st = true /\
  real_free st = true /\ real_realloc st = true.

(** The state of the process when it starts: every global is zero, the
    static array [init_heap] sits at the address [base]. *)
Definition start (base : Z) : state :=
  mkState false false false false base 0 0 0 0 0 0 0 ∅ [].

(** The addresses of a header that does not wrap around the address space. *)
Definition header_at (ret : Z) : Prop := 0 <= ret /\ ret + alignment < 2 ^ 64.

(** The events a ledger update adds: the call of the callback, when one is
    registered, with the new [curr]. *)
Definition callback_event (st : state) (cur : Z) : list event :=
  if callback st =? 0 then []
  else [EvCallback (callback st) (callback_cookie st) cur].

(** The four counters of a state. *)
Definition counters (st : state) : Z * Z * Z * Z :=
  (curr st, peak st, total st, num_allocs st).

(** What no entry point but [init] and the init-heap path of [malloc]
    changes: the resolved pointers, the place and the fill of the init
    heap, the registered callback. *)
Definition same_setup (st st' : state) : Prop :=
  real_malloc st' = real_malloc st /\
  real_aligned_alloc st' = real_aligned_alloc st /\
  real_free st' = real_free st /\
  real_realloc st' = real_realloc st /\
  init_heap st' = init_heap st /\
  init_heap_use st' = init_heap_use st /\
  callback st' = callback st /\
  callback_cookie st' = callback_cookie st.

(** ** Sequences of [malloc] and [free] calls *)

(** [OpMalloc r size] is the call [malloc(size)] to which the real
    allocator answers [r]; [OpFree ptr] is the call [free(ptr)]. *)
Inductive op : Type :=
  | OpMalloc (r size : Z)
  | OpFree (ptr : Z).

Definition step (o : op) (st : state) : outcome unit :=
  match o with
  | OpMalloc r size => call _p, st1 <- malloc r size st; Ret tt st1
  | OpFree ptr => free ptr st
  end.

Fixpoint run (ops : list op) (st : state) : outcome unit :=
  match ops with
  | [] => Ret tt st
  | o :: rest => call _u, st1 <- step o st; run rest st1
  end.

(** The blocks that are live, most recent first: the pointer the caller
    holds and the size it asked for. *)
Fixpoint lookup_live (p : Z) (live : list (Z * Z)) : option Z :=
  match live with
  | [] => None
  | (q, s) :: rest => if q =? p then Some s else lookup_live p rest
  end.

Fixpoint remove_live (p : Z) (live : list (Z * Z)) : list (Z * Z) :=
  match live with
  | [] => []
  | (q, s) :: rest => if q =? p then rest else (q, s) :: remove_live p rest
  end.

Fixpoint sum_live (live : list (Z * Z)) : Z :=
  match live with
  | [] => 0
  | (_, s) :: rest => s + sum_live rest
  end.

(** What the sequences the real allocator can produce look like: the block
    it hands out at [r] is not null, its header does not wrap around the
    address space, lies outside the init heap and is apart from the header
    of every live block. *)
Definition apart (r : Z) (b : Z * Z) : bool :=
  (r + alignment <=? fst b - alignment) || (fst b <=? r).

Definition fresh_block (base use : Z) (live : list (Z * Z)) (r : Z) : bool :=
  (0 <? r) && (r + alignment <? 2 ^ 64)
  && negb (in_arena base use (r + alignment))
  && forallb (apart r) live.

(** [live_after base use live ops] is the table of live blocks after the
    calls [ops], when every [malloc] in it asks for a size in (0, 2^64) and
    is answered with a fresh block, and every [free] is given the pointer of
    a live block; [None] otherwise. A sequence in which every pointer that
    [malloc] returned is freed exactly once ends with the empty table. *)
Fixpoint live_after (base use : Z) (live : list (Z * Z)) (ops : list op)
  : option (list (Z * Z)) :=
  match ops with
  | [] => Some live
  | OpMalloc r size :: rest =>
      if (0 <? size) && (size <? 2 ^ 64) && fresh_block base use live r
      then live_after base use ((r + alignment, size) :: live) rest
      else None
  | OpFree p :: rest =>
      match lookup_live p live with
      | Some _ => live_after base use (remove_live p live) rest
      | None => None
      end
  end.

(** The ledger as the specification words it, on the counters
    [(current, peak, total, count)], in the arithmetic of the counters
    (64-bit two's complement):
    [account_allocate(size)] increments current and total by [size],
    increments count by 1 and updates peak to max(peak, current);
    [account_free(size)] decrements current by [size]. *)
Definition account_allocate (size : Z) (c : Z * Z * Z * Z) : Z * Z * Z * Z :=
  let '(current, pk, tot, count) := c in
  let current' := to_long_long (current + size) in
  (current', Z.max pk current', to_long_long (tot + size),
   to_long_long (count + 1)).

Definition account_free (size : Z) (c : Z * Z * Z * Z) : Z * Z * Z * Z :=
  let '(current, pk, tot, count) := c in
  (to_long_long (current - size), pk, tot, count).

(** The ledger after a sequence of calls: each [malloc(s)] is one
    [account_allocate(s)], each [free] of a block that was requested with
    size [s] is one [account_free(s)]. *)
Fixpoint account (live : list (Z * Z)) (ops : list op) (c : Z * Z * Z * Z)
  : Z * Z * Z * Z :=
  match ops with
  | [] => c
  | OpMalloc r size :: rest =>
      account ((r + alignment, size) :: live) rest (account_allocate size c)
  | OpFree p :: rest =>
      match lookup_live p live with
      | Some s => account (remove_live p live) rest (account_free s c)
      | None => c
      end
  end.

(** Every live block still has the header [malloc] wrote. *)
Definition headers_intact (live : list (Z * Z)) (st : state) : Prop :=
  Forall (fun b : Z * Z =>
            is_size_t (snd b) /\ header_at (fst b - alignment) /\
            on_init_heap (fst b) st = false /\
            load_size_t (mem st) (fst b - alignment) = snd b /\
            load_size_t (mem st) (fst b - alignment + sizeof_size_t) = 0)
         live.

(** The first of the four counters, [current]. *)
Definition current_of (c : Z * Z * Z * Z) : Z := fst (fst (fst c)).

(** The state in which [init] leaves a process that has not allocated yet. *)
Definition ready_state (base : Z) : state :=
  mkState true true true true base 0 0 0 0 0 0 0 ∅ [].

(** The invariant of the ledger, on the counters as they are stored, and
    what an entry point owes to it: the invariant afterwards, and a peak
    that has not decreased. *)
Definition ledger_kept (st st' : state) : Prop :=
  curr st' <= peak st' /\ peak st <= peak st'.

(** [free(ptr)] reaches [dec_count]: the pointer is not null, not on the
    init heap, and [real_free] is resolved. *)
Definition free_decrements (ptr : Z) (st : state) : bool :=
  negb (ptr =? 0) && negb (on_init_heap ptr st) && real_free st.


(** The state a call ends in, and the value it returns when it returns. *)
Definition state_of {A : Type} (o : outcome A) : state :=
  match o with
  | Ret _ st | Exit st | Fault st => st
  end.

Definition value_of {A : Type} (o : outcome A) : option A :=
  match o with
  | Ret v _ => Some v
  | Exit _ | Fault _ => None
  end.


(** The bytes a sequence of calls asks [malloc] for, and the number of its
    [malloc] calls. *)
Fixpoint requested (ops : list op) : Z :=
  match ops with
  | [] => 0
  | OpMalloc _ size :: rest => size + requested rest
  | OpFree _ :: rest => requested rest
  end.

Fixpoint allocations (ops : list op) : Z :=
  match ops with
  | [] => 0
  | OpMalloc _ _ :: rest => 1 + allocations rest
  | OpFree _ :: rest => allocations rest
  end.

(** The third and the fourth of the four counters. *)
Definition total_of (c : Z * Z * Z * Z) : Z := snd (fst c).
Definition count_of (c : Z * Z * Z * Z) : Z := snd c.

(** The call to the real allocator that an entry point call stands for:
    [malloc(size)] asks for [alignment + size] bytes; [free(ptr)] hands
    over the block that starts one header before [ptr]. *)
Definition real_call (o : op) : event :=
  match o with
  | OpMalloc r size => EvRealMalloc (to_size_t (alignment + size)) r
  | OpFree ptr => EvRealFree (ptr - alignment)
  end.

(** Every live block has the header [malloc] wrote, sentinel included. *)
Definition headers_sealed (live : list (Z * Z)) (st : state) : Prop :=
  Forall (fun b : Z * Z =>
            is_size_t (snd b) /\ header_at (fst b - alignment) /\
            on_init_heap (fst b) st = false /\
            load_size_t (mem st) (fst b - alignment) = snd b /\
            load_size_t (mem st) (fst b - alignment + sizeof_size_t) = 0 /\
            sentinel_ok (fst b - alignment) (mem st) = true)
         live.

(** ** Sequences of actions on the process *)

(** What can happen to the globals between two calls of interest: a call of
    an entry point, one of the four assignments of [init], a call of
    [malloc_count_reset_peak] or of [malloc_count_set_callback]. *)
Inductive real_fn : Type :=
  | RealMalloc
  | RealAlignedAlloc
  | RealRealloc
  | RealFree.

Inductive action : Type :=
  | ActCall (c : entry_call)
  | ActResolve (f : real_fn) (found : bool)
  | ActResetPeak
  | ActSetCallback (cb cookie : Z).

Definition assign_real (f : real_fn) : bool -> state -> state :=
  match f with
  | RealMalloc => set_real_malloc
  | RealAlignedAlloc => set_real_aligned_alloc
  | RealRealloc => set_real_realloc
  | RealFree => set_real_free
  end.

Definition perform (a : action) (st : state) : outcome unit :=
  match a with
  | ActCall c => exec c st
  | ActResolve f found => Ret tt (assign_real f found st)
  | ActResetPeak => Ret tt (malloc_count_reset_peak st)
  | ActSetCallback cb cookie => Ret tt (malloc_count_set_callback cb cookie st)
  end.




(** A request of [n] bytes does not wrap the bound test of the init heap:
    [n] is a [size_t] and, if the request is served from the init heap, the
    sum [init_heap_use + alignment + n] stays below 2^64. *)
Definition request_fits (n : Z) (st : state) : bool :=
  (0 <=? n) && (real_malloc st || (init_heap_use st + alignment + n <? 2 ^ 64)).

(** The size a call may ask [malloc] for. *)
Definition fits (c : entry_call) (st : state) : bool :=
  match c with
  | CallMalloc _ size => request_fits size st
  | CallCalloc _ nmemb size => request_fits (to_size_t (size * nmemb)) st
  | CallRealloc _ _ size => request_fits size st
  | CallAlignedAlloc _ _ _ | CallPosixMemalign _ _ _ _ | CallMemalign _ _ _
  | CallFree _ => true
  end.

Definition action_fits (a : action) (st : state) : bool :=
  match a with
  | ActCall c => fits c st
  | ActResolve _ _ | ActResetPeak | ActSetCallback _ _ => true
  end.

(** Every request of the sequence fits, in the state in which it is made. *)
Fixpoint actions_fit (acts : list action) (st : state) : bool :=
  match acts with
  | [] => true
  | a :: rest =>
      action_fits a st
      && match perform a st with
         | Ret _ st1 => actions_fit rest st1
         | Exit _ | Fault _ => true
         end
  end.



(** A process whose first allocation, [malloc(16)], comes before [init], and
    in which [setlocale] allocates 1780 bytes while [init] runs: the states
    after the first call and after [init]. *)
Definition early_st1 : state := state_of (malloc 0 16 (start 0x600000)).
Definition early_st2 : state :=
  state_of (init [CallMalloc 0 1780] found_quietly found_quietly found_quietly
              found_quietly early_st1).

(** What no entry point changes: the resolved pointers, the place of the
    init heap, the registered callback. *)
Definition same_resolution (st st' : state) : Prop :=
  real_malloc st' = real_malloc st /\
  real_aligned_alloc st' = real_aligned_alloc st /\
  real_free st' = real_free st /\
  real_realloc st' = real_realloc st /\
  init_heap st' = init_heap st /\
  callback st' = callback st /\
  callback_cookie st' = callback_cookie st.

(** A lookup after which [dlerror] reports an error. *)
Definition not_found : symbol_lookup := mkLookup [] false [] true.

(** The state in which a process ends when the second lookup of [init]
    fails. *)
Definition failed_init_st : state :=
  state_of (init [] found_quietly not_found found_quietly found_quietly
              (start 0x600000)).

(** The process of [early_st2] after the sentinel of its first block, the
    16 bytes at 0x600020 on the init heap, has been overwritten. *)
Definition damaged_st : state :=
  set_mem (store_size_t (mem early_st2) 0x600018 0) early_st2.

(** A process that calls [malloc(16)] and then [malloc(2^64 - 80)] before
    [init], and frees the first pointer after [init]: the states after the
    second call, after [init] and after the [free]. *)
Definition rewound_st1 : state :=
  state_of (malloc 0 (2 ^ 64 - 80) early_st1).
Definition rewound_st2 : state :=
  state_of (init [] found_quietly found_quietly found_quietly found_quietly
              rewound_st1).
Definition rewound_st3 : state := state_of (free 0x600020 rewound_st2).

(** * Properties *)

(** Closed goals about concrete calls: a conjunction of facts, each settled
    by evaluation. *)
Ltac evaluate_each :=
  repeat match goal with |- _ /\ _ => split end; vm_compute; reflexivity.

Lemma Ret_inv {A : Type} (v v' : A) (st st' : state) :
  Ret v st = Ret v' st' -> v = v' /\ st = st'.
Proof. intros H. now inversion H. Qed.

(** ** Machine integers *)

Lemma to_size_t_range (x : Z) : is_size_t (to_size_t x).
Proof. unfold is_size_t, to_size_t. apply Z.mod_pos_bound. lia. Qed.

Lemma to_size_t_small (x : Z) : is_size_t x -> to_size_t x = x.
Proof. unfold is_size_t, to_size_t. intros H. apply Z.mod_small. lia. Qed.

Lemma to_long_long_range (x : Z) : is_long_long (to_long_long x).
Proof.
  unfold is_long_long, to_long_long.
  pose proof (Z.mod_pos_bound (x + 2 ^ 63) (2 ^ 64)). lia.
Qed.

Lemma to_long_long_small (x : Z) : is_long_long x -> to_long_long x = x.
Proof.
  unfold is_long_long, to_long_long. intros H.
  rewrite Z.mod_small; lia.
Qed.

(** Two integers with the same low 64 bits are the same [long long]. *)
Lemma to_long_long_congr (x y : Z) :
  (x - y) mod 2 ^ 64 = 0 -> to_long_long x = to_long_long y.
Proof.
  unfold to_long_long. intros H.
  apply Z.mod_divide in H; [|lia]. destruct H as [k Hk].
  replace (x + 2 ^ 63) with (y + 2 ^ 63 + k * 2 ^ 64) by lia.
  now rewrite Z.mod_add by lia.
Qed.

Lemma to_long_long_add_l (x y : Z) :
  to_long_long (to_long_long x + y) = to_long_long (x + y).
Proof.
  apply to_long_long_congr. unfold to_long_long.
  rewrite (Z.mod_eq (x + 2 ^ 63) (2 ^ 64)) by lia.
  replace (_ - (x + y)) with ((- ((x + 2 ^ 63) / 2 ^ 64)) * 2 ^ 64) by lia.
  apply Z.mod_mul. lia.
Qed.

Lemma to_long_long_sub_l (x y : Z) :
  to_long_long (to_long_long x - y) = to_long_long (x - y).
Proof.
  replace (to_long_long x - y) with (to_long_long x + - y) by lia.
  now rewrite to_long_long_add_l.
Qed.

Lemma to_size_t_to_long_long (x : Z) : to_size_t (to_long_long x) = to_size_t x.
Proof.
  unfold to_size_t, to_long_long.
  rewrite (Z.mod_eq (x + 2 ^ 63) (2 ^ 64)) by lia.
  replace (x + 2 ^ 63 - 2 ^ 64 * ((x + 2 ^ 63) / 2 ^ 64) - 2 ^ 63)
    with (x + (- ((x + 2 ^ 63) / 2 ^ 64)) * 2 ^ 64) by lia.
  apply Z.mod_add. lia.
Qed.

Lemma ptr_add_small (p n : Z) : is_size_t (p + n) -> ptr_add p n = p + n.
Proof. apply to_size_t_small. Qed.

Lemma ptr_sub_small (p n : Z) : is_size_t (p - n) -> ptr_sub p n = p - n.
Proof. apply to_size_t_small. Qed.

(** ** Memory *)

Lemma length_le_bytes (n : nat) (v : Z) : length (le_bytes n v) = n.
Proof. revert v. induction n as [|n IH]; intros v; simpl; rewrite ?IH; reflexivity. Qed.

Lemma length_read_bytes (n : nat) (a : Z) (m : gmap Z Z) :
  length (read_bytes n a m) = n.
Proof. revert a. induction n as [|n IH]; intros a; simpl; rewrite ?IH; reflexivity. Qed.

Lemma le_value_le_bytes (n : nat) (v : Z) :
  le_value (le_bytes n v) = v mod 256 ^ Z.of_nat n.
Proof.
  revert v. induction n as [|n IH]; intros v.
  - simpl. now rewrite Z.mod_1_r.
  - cbn [le_bytes le_value]. rewrite IH.
    rewrite Nat2Z.inj_succ, Z.pow_succ_r by lia.
    rewrite Z.rem_mul_r by lia. reflexivity.
Qed.

Lemma read_byte_write_bytes_out (bs : list Z) (a x : Z) (m : gmap Z Z) :
  x < a \/ a + Z.of_nat (length bs) <= x ->
  read_byte (write_bytes a bs m) x = read_byte m x.
Proof.
  revert a m. induction bs as [|b bs IH]; intros a m H; simpl in *.
  - reflexivity.
  - rewrite IH by lia. unfold read_byte.
    rewrite lookup_insert_ne by lia. reflexivity.
Qed.

Lemma read_bytes_write_bytes_eq (bs : list Z) (a : Z) (m : gmap Z Z) :
  read_bytes (length bs) a (write_bytes a bs m) = map (fun b => b mod 256) bs.
Proof.
  revert a m. induction bs as [|b bs IH]; intros a m; simpl.
  - reflexivity.
  - rewrite IH. f_equal.
    rewrite read_byte_write_bytes_out by lia.
    unfold read_byte. now rewrite lookup_insert_eq.
Qed.

Lemma le_bytes_reduced (n : nat) (v : Z) :
  map (fun b => b mod 256) (le_bytes n v) = le_bytes n v.
Proof.
  revert v. induction n as [|n IH]; intros v; simpl; [reflexivity|].
  rewrite IH, Z.mod_mod by lia. reflexivity.
Qed.

Lemma le_value_range (bs : list Z) :
  Forall (fun b => 0 <= b < 256) bs ->
  0 <= le_value bs < 256 ^ Z.of_nat (length bs).
Proof.
  induction 1 as [|b bs Hb _ IH]; [cbn; lia|].
  cbn [le_value length]. rewrite Nat2Z.inj_succ, Z.pow_succ_r by lia. lia.
Qed.

Lemma read_bytes_bytes (n : nat) (a : Z) (m : gmap Z Z) :
  Forall (fun b => 0 <= b < 256) (read_bytes n a m).
Proof.
  revert a. induction n as [|n IH]; intros a; cbn; constructor.
  - unfold read_byte. apply Z.mod_pos_bound. lia.
  - apply IH.
Qed.

(** Whatever the memory holds, a load yields a [size_t]. *)
Lemma load_size_t_range (m : gmap Z Z) (a : Z) : is_size_t (load_size_t m a).
Proof.
  unfold load_size_t, is_size_t.
  pose proof (le_value_range _ (read_bytes_bytes 8 a m)) as H.
  rewrite length_read_bytes in H. exact H.
Qed.

Lemma read_bytes_write_bytes_out (n : nat) (bs : list Z) (a x : Z) (m : gmap Z Z) :
  x + Z.of_nat n <= a \/ a + Z.of_nat (length bs) <= x ->
  read_bytes n x (write_bytes a bs m) = read_bytes n x m.
Proof.
  revert x. induction n as [|n IH]; intros x H; simpl.
  - reflexivity.
  - rewrite IH by lia. f_equal. apply read_byte_write_bytes_out. lia.
Qed.

Lemma load_store_eq (m : gmap Z Z) (a v : Z) :
  is_size_t v -> load_size_t (store_size_t m a v) a = v.
Proof.
  intros Hv. unfold load_size_t, store_size_t.
  pose proof (read_bytes_write_bytes_eq (le_bytes 8 v) a m) as E.
  rewrite length_le_bytes in E. rewrite E, le_bytes_reduced, le_value_le_bytes.
  apply Z.mod_small. unfold is_size_t in Hv. simpl. lia.
Qed.

Lemma load_store_ne (m : gmap Z Z) (a b v : Z) :
  b + 8 <= a \/ a + 8 <= b ->
  load_size_t (store_size_t m a v) b = load_size_t m b.
Proof.
  intros H. unfold load_size_t, store_size_t.
  rewrite read_bytes_write_bytes_out; [reflexivity|].
  rewrite length_le_bytes. lia.
Qed.

Lemma header_fields (ret size extra : Z) (m : gmap Z Z) :
  header_at ret -> is_size_t size -> is_size_t extra ->
  load_size_t (write_header ret size extra m) ret = size /\
  load_size_t (write_header ret size extra m) (ptr_add ret sizeof_size_t) = extra /\
  sentinel_ok ret (write_header ret size extra m) = true.
Proof.
  unfold header_at, alignment, sizeof_size_t. intros [H0 H1] Hs He.
  unfold write_header, sentinel_ok, alignment, sizeof_size_t.
  rewrite (ptr_add_small ret 8), (ptr_add_small ret 32), (ptr_sub_small (ret + 32) 8)
    by (unfold is_size_t; lia).
  replace (ret + 32 - 8) with (ret + 24) by lia.
  repeat split.
  - rewrite !load_store_ne by lia. now apply load_store_eq.
  - rewrite load_store_ne by lia. now apply load_store_eq.
  - rewrite load_store_eq; [reflexivity | unfold is_size_t, sentinel; lia].
Qed.

(** A header written elsewhere leaves the words outside of it alone. *)
Lemma write_header_other (ret size extra a : Z) (m : gmap Z Z) :
  header_at ret -> a + 8 <= ret \/ ret + alignment <= a ->
  load_size_t (write_header ret size extra m) a = load_size_t m a.
Proof.
  unfold header_at, alignment. intros [H0 H1] Ha.
  unfold write_header, alignment, sizeof_size_t.
  rewrite (ptr_add_small ret 8), (ptr_add_small ret 32), (ptr_sub_small (ret + 32) 8)
    by (unfold is_size_t; lia).
  rewrite !load_store_ne by lia. reflexivity.
Qed.

(** ** The ledger *)

Lemma inc_count_fields (inc : Z) (st : state) :
  let c := to_long_long (curr st + inc) in
  curr (inc_count inc st) = c /\
  peak (inc_count inc st) = Z.max (peak st) c /\
  total (inc_count inc st) = to_long_long (total st + inc) /\
  num_allocs (inc_count inc st) = to_long_long (num_allocs st + 1) /\
  trace (inc_count inc st) = callback_event st c ++ trace st.
Proof.
  unfold inc_count, run_callback, callback_event. cbn.
  destruct (Z.ltb_spec (peak st) (to_long_long (curr st + inc)));
    cbn; destruct (callback st =? 0); cbn; repeat split; lia.
Qed.

Lemma inc_count_frame (inc : Z) (st : state) :
  mem (inc_count inc st) = mem st /\
  init_heap (inc_count inc st) = init_heap st /\
  init_heap_use (inc_count inc st) = init_heap_use st /\
  real_malloc (inc_count inc st) = real_malloc st /\
  real_aligned_alloc (inc_count inc st) = real_aligned_alloc st /\
  real_free (inc_count inc st) = real_free st /\
  real_realloc (inc_count inc st) = real_realloc st /\
  callback (inc_count inc st) = callback st /\
  callback_cookie (inc_count inc st) = callback_cookie st.
Proof.
  unfold inc_count, run_callback. cbn.
  destruct (peak st <? to_long_long (curr st + inc));
    cbn; destruct (callback st =? 0); cbn; repeat split.
Qed.

Lemma dec_count_fields (dec : Z) (st : state) :
  let c := to_long_long (curr st - dec) in
  curr (dec_count dec st) = c /\
  peak (dec_count dec st) = peak st /\
  total (dec_count dec st) = total st /\
  num_allocs (dec_count dec st) = num_allocs st /\
  trace (dec_count dec st) = callback_event st c ++ trace st.
Proof.
  unfold dec_count, run_callback, callback_event. cbn.
  destruct (callback st =? 0); cbn; repeat split.
Qed.

Lemma dec_count_frame (dec : Z) (st : state) :
  mem (dec_count dec st) = mem st /\
  init_heap (dec_count dec st) = init_heap st /\
  init_heap_use (dec_count dec st) = init_heap_use st /\
  real_malloc (dec_count dec st) = real_malloc st /\
  real_aligned_alloc (dec_count dec st) = real_aligned_alloc st /\
  real_free (dec_count dec st) = real_free st /\
  real_realloc (dec_count dec st) = real_realloc st /\
  callback (dec_count dec st) = callback st /\
  callback_cookie (dec_count dec st) = callback_cookie st.
Proof.
  unfold dec_count, run_callback. cbn.
  destruct (callback st =? 0); cbn; repeat split.
Qed.

(** ** Zero-size requests *)

(** C8. [malloc(0)] and, for every alignment [al], [aligned_alloc(al, 0)]
    return the null pointer and leave the whole state as it was: the four
    counters [curr], [num_allocs], [total] and [peak], the memory (no header
    is written), the bump pointer of the init heap and the trace (the real
    allocator is not called). This holds whether or not the real allocator
    has been resolved, and whatever it would answer. *)
Theorem zero_size_is_null_and_silent (r al : Z) (st : state) :
  malloc r 0 st = Ret 0 st /\ aligned_alloc r al 0 st = Ret 0 st.
Proof. split; reflexivity. Qed.

(** ** The adapters over [aligned_alloc] *)

Lemma aligned_alloc_ret_range (r al size p : Z) (st st' : state) :
  aligned_alloc r al size st = Ret p st' -> is_size_t p.
Proof.
  unfold aligned_alloc.
  destruct (size =? 0); [intros [= <- _]; unfold is_size_t; lia|].
  destruct (real_aligned_alloc st); cbn; [|discriminate].
  destruct (r =? 0); [discriminate|].
  intros [= <- _]. apply to_size_t_range.
Qed.

(** C10. [memalign(al, size)] is [aligned_alloc(al, size)]. For a [memptr]
    the caller may store through (it is not null), [posix_memalign] never
    returns anything but 0: with [size = 0] it stores the null pointer in
    [*memptr] and returns 0; when [aligned_alloc] returns [p] it stores [p]
    in [*memptr], leaves the counters and the trace as [aligned_alloc] left
    them, and returns 0; and when [aligned_alloc] ends the process, so does
    [posix_memalign]. *)
Theorem posix_memalign_returns_zero (r memptr al size : Z) (st : state) :
  memptr <> 0 ->
  memalign r al size st = aligned_alloc r al size st /\
  (exists st', posix_memalign r memptr al 0 st = Ret 0 st' /\
     load_size_t (mem st') memptr = 0 /\
     counters st' = counters st /\ trace st' = trace st) /\
  (forall v st', posix_memalign r memptr al size st = Ret v st' -> v = 0) /\
  (forall p st1, aligned_alloc r al size st = Ret p st1 ->
     exists st', posix_memalign r memptr al size st = Ret 0 st' /\
       load_size_t (mem st') memptr = p /\
       counters st' = counters st1 /\ trace st' = trace st1) /\
  (forall st1, aligned_alloc r al size st = Exit st1 ->
     posix_memalign r memptr al size st = Exit st1).
Proof.
  intros Hm. apply Z.eqb_neq in Hm.
  split; [reflexivity|]. split; [|split; [|split]].
  - unfold posix_memalign. cbn. rewrite Hm.
    eexists. split; [reflexivity|]. cbn.
    split; [|split; reflexivity].
    apply load_store_eq. unfold is_size_t. lia.
  - intros v st'. unfold posix_memalign.
    destruct (aligned_alloc r al size st); cbn; try discriminate.
    rewrite Hm. now intros [= <- _].
  - intros p st1 Ha. pose proof (aligned_alloc_ret_range _ _ _ _ _ _ Ha) as Hp.
    unfold posix_memalign. rewrite Ha. cbn. rewrite Hm.
    eexists. split; [reflexivity|]. cbn.
    split; [|split; reflexivity]. now apply load_store_eq.
  - intros st1 Ha. unfold posix_memalign. now rewrite Ha.
Qed.

(** ** [calloc] *)

Lemma read_byte_write_bytes_in (bs : list Z) (k : nat) (b a : Z) (m : gmap Z Z) :
  bs !! k = Some b ->
  read_byte (write_bytes a bs m) (a + Z.of_nat k) = b mod 256.
Proof.
  revert k a m. induction bs as [|c bs IH]; intros k a m H; [discriminate|].
  destruct k as [|k].
  - injection H as ->. cbn [write_bytes Z.of_nat]. rewrite Z.add_0_r.
    rewrite read_byte_write_bytes_out by lia.
    unfold read_byte. now rewrite lookup_insert_eq.
  - cbn [write_bytes]. rewrite Nat2Z.inj_succ.
    replace (a + Z.succ (Z.of_nat k)) with (a + 1 + Z.of_nat k) by lia.
    apply IH. exact H.
Qed.

Lemma read_byte_memset_in (p c n i : Z) (m : gmap Z Z) :
  0 <= i < n -> read_byte (memset p c n m) (p + i) = c mod 256.
Proof.
  intros Hi. unfold memset.
  replace i with (Z.of_nat (Z.to_nat i)) by lia.
  rewrite (read_byte_write_bytes_in _ (Z.to_nat i) (c mod 256))
    by (apply lookup_replicate_2; lia).
  apply Z.mod_mod. lia.
Qed.

Lemma read_byte_memset_out (p c n a : Z) (m : gmap Z Z) :
  0 <= n -> a < p \/ p + n <= a ->
  read_byte (memset p c n m) a = read_byte m a.
Proof.
  intros Hn Ha. unfold memset. apply read_byte_write_bytes_out.
  rewrite length_replicate. lia.
Qed.

(** C9. [calloc(nmemb, size)] works with [n], the product of its arguments
    modulo 2^64, and makes no test for overflow. When [n] is 0 it returns
    the null pointer and the state is untouched. Otherwise it is
    [malloc(n)] followed by [memset]: when [malloc(n)] ends the process so
    does [calloc]; when [malloc(n)] returns [ret], [calloc] returns [ret]
    with the counters and the trace [malloc] left, the [n] bytes from
    [ret] on read 0 and every other byte is as [malloc] left it. *)
Theorem calloc_is_malloc_of_wrapped_product (r nmemb size : Z) (st : state) :
  let n := (nmemb * size) mod 2 ^ 64 in
  (n = 0 -> calloc r nmemb size st = Ret 0 st) /\
  (n <> 0 ->
   (forall st1, malloc r n st = Exit st1 -> calloc r nmemb size st = Exit st1) /\
   (forall st1, malloc r n st = Fault st1 -> calloc r nmemb size st = Fault st1) /\
   (forall ret st1, malloc r n st = Ret ret st1 ->
      exists st2, calloc r nmemb size st = Ret ret st2 /\
        counters st2 = counters st1 /\ trace st2 = trace st1 /\
        init_heap_use st2 = init_heap_use st1 /\
        (forall i, 0 <= i < n -> read_byte (mem st2) (ret + i) = 0) /\
        (forall a, a < ret \/ ret + n <= a ->
           read_byte (mem st2) a = read_byte (mem st1) a))).
Proof.
  intros n.
  assert (En : to_size_t (size * nmemb) = n)
    by (unfold n, to_size_t; f_equal; lia).
  assert (Hn : 0 <= n) by (apply Z.mod_pos_bound; lia).
  unfold calloc. rewrite En. split.
  - intros ->. reflexivity.
  - intros Hne. apply Z.eqb_neq in Hne. rewrite Hne.
    split; [|split].
    + intros st1 ->. reflexivity.
    + intros st1 ->. reflexivity.
    + intros ret st1 ->. cbn. eexists. split; [reflexivity|]. cbn.
      repeat split.
      * intros i Hi. now rewrite read_byte_memset_in.
      * intros a Ha. now apply read_byte_memset_out.
Qed.

(** ** [aligned_alloc] *)

Lemma pow2_divide_pow2 (k n : Z) : 0 <= k <= n -> (2 ^ k | 2 ^ n).
Proof.
  intros H. exists (2 ^ (n - k)).
  rewrite <- Z.pow_add_r by lia. f_equal. lia.
Qed.

Lemma divide_to_size_t (a x : Z) : (a | 2 ^ 64) -> (a | x) -> (a | to_size_t x).
Proof.
  intros Ha Hx. unfold to_size_t. rewrite Z.mod_eq by lia.
  apply Z.divide_sub_r; [exact Hx|]. now apply Z.divide_mul_l.
Qed.

(** The extra alignment the source computes is [max(0, al - alignment)]. *)
Lemma extra_alignment_max (al : Z) :
  is_size_t al ->
  (if alignment <=? al then to_size_t (al - alignment) else 0)
  = Z.max 0 (al - alignment).
Proof.
  unfold is_size_t, alignment. intros H.
  destruct (Z.leb_spec 32 al).
  - rewrite to_size_t_small by (unfold is_size_t; lia). lia.
  - lia.
Qed.

(** C3. Let [a = 2^k] be a power of two that a [size_t] holds, [size > 0],
    and let the real aligned allocator be resolved and answer [r], not
    null and a multiple of [a]. Then [aligned_alloc(a, size)] returns, the
    one call it made to the real allocator is
    [real_aligned_alloc(a, size + alignment + extra)] with
    [extra = max(0, a - alignment)] (the sum is a [size_t] sum), the pointer
    it returns is [r + extra + alignment] and is a multiple of [a]. *)
Theorem aligned_alloc_honours_alignment (r k size : Z) (st : state) :
  let a := 2 ^ k in
  let extra := Z.max 0 (a - alignment) in
  0 <= k < 64 -> is_size_t size -> size <> 0 ->
  real_aligned_alloc st = true ->
  is_size_t r -> r <> 0 -> (a | r) ->
  exists p st',
    aligned_alloc r a size st = Ret p st' /\
    p = ptr_add (ptr_add r extra) alignment /\
    p mod a = 0 /\
    trace st' =
      callback_event st (curr st')
      ++ EvRealAlignedAlloc a (to_size_t (size + alignment + extra)) r
      :: trace st.
Proof.
  intros a extra Hk Hsize Hnz Hready Hr Hr0 Hdiv.
  assert (Ha : 0 < a <= 2 ^ 63).
  { unfold a. split; [apply Z.pow_pos_nonneg; lia|].
    apply Z.pow_le_mono_r; lia. }
  assert (Hal : is_size_t a) by (unfold is_size_t; lia).
  assert (Ha64 : (a | 2 ^ 64)) by (apply pow2_divide_pow2; lia).
  assert (Hsum : (a | extra + alignment)).
  { unfold extra, alignment. destruct (Z.le_gt_cases 32 a) as [Hge|Hlt].
    - replace (Z.max 0 (a - 32) + 32) with a by lia. apply Z.divide_refl.
    - replace (Z.max 0 (a - 32) + 32) with (2 ^ 5) by lia.
      apply pow2_divide_pow2. split; [lia|].
      assert (k < 5); [|lia].
      apply (Z.pow_lt_mono_r_iff 2); [lia | lia | exact Hlt]. }
  unfold aligned_alloc.
  apply Z.eqb_neq in Hnz, Hr0. rewrite Hnz, Hready. cbn [negb].
  rewrite (extra_alignment_max a Hal). fold extra. rewrite Hr0.
  do 2 eexists. split; [reflexivity|]. split; [reflexivity|]. split.
  - apply Z.mod_divide; [lia|].
    unfold ptr_add. apply divide_to_size_t; [exact Ha64|].
    unfold to_size_t at 1. rewrite Z.mod_eq by lia.
    replace (r + extra - 2 ^ 64 * ((r + extra) / 2 ^ 64) + alignment)
      with (r + (extra + alignment) - 2 ^ 64 * ((r + extra) / 2 ^ 64)) by lia.
    apply Z.divide_sub_r; [apply Z.divide_add_r; assumption|].
    now apply Z.divide_mul_l.
  - cbn [trace set_mem curr].
    destruct (inc_count_fields size
                (emit (EvRealAlignedAlloc a
                         (to_size_t (size + alignment + extra)) r) st))
      as (Hc & _ & _ & _ & Ht).
    rewrite Ht. cbn [trace emit curr]. unfold callback_event. cbn [callback callback_cookie emit].
    rewrite Hc. reflexivity.
Qed.

(** ** [malloc] and [free] once the real allocator is resolved *)

Lemma same_setup_refl (st : state) : same_setup st st.
Proof. unfold same_setup. repeat split. Qed.

Lemma same_setup_trans (st1 st2 st3 : state) :
  same_setup st1 st2 -> same_setup st2 st3 -> same_setup st1 st3.
Proof. unfold same_setup. intuition congruence. Qed.

Lemma inc_count_counters (inc : Z) (st : state) :
  counters (inc_count inc st) = account_allocate inc (counters st).
Proof.
  destruct (inc_count_fields inc st) as (H1 & H2 & H3 & H4 & _).
  unfold counters, account_allocate. now rewrite H1, H2, H3, H4.
Qed.

Lemma dec_count_counters (dec : Z) (st : state) :
  counters (dec_count dec st) = account_free dec (counters st).
Proof.
  destruct (dec_count_fields dec st) as (H1 & H2 & H3 & H4 & _).
  unfold counters, account_free. now rewrite H1, H2, H3, H4.
Qed.

Lemma inc_count_same_setup (inc : Z) (st : state) : same_setup st (inc_count inc st).
Proof. pose proof (inc_count_frame inc st). unfold same_setup. tauto. Qed.

Lemma dec_count_same_setup (dec : Z) (st : state) : same_setup st (dec_count dec st).
Proof. pose proof (dec_count_frame dec st). unfold same_setup. tauto. Qed.

(** The path of [malloc] through the real allocator. *)
Lemma malloc_ready (r size : Z) (st : state) :
  real_malloc st = true -> size <> 0 -> r <> 0 ->
  exists st',
    malloc r size st = Ret (ptr_add r alignment) st' /\
    counters st' = account_allocate size (counters st) /\
    mem st' = write_header r size 0 (mem st) /\
    trace st' =
      callback_event st (to_long_long (curr st + size))
      ++ EvRealMalloc (to_size_t (alignment + size)) r :: trace st /\
    same_setup st st'.
Proof.
  intros Hready Hs Hr. apply Z.eqb_neq in Hs, Hr.
  unfold malloc. rewrite Hs, Hready, Hr.
  set (st1 := emit (EvRealMalloc (to_size_t (alignment + size)) r) st).
  eexists. split; [reflexivity|].
  destruct (inc_count_fields size st1) as (_ & _ & _ & _ & Ht).
  destruct (inc_count_frame size st1) as (Hm & _).
  pose proof (inc_count_same_setup size st1) as Hf.
  cbn [counters curr peak total num_allocs mem trace set_mem].
  repeat split; try apply Hf.
  - apply (inc_count_counters size st1).
  - now rewrite Hm.
  - exact Ht.
Qed.

(** The path of [free] through the real allocator. *)
Lemma free_real (p : Z) (st : state) :
  p <> 0 -> on_init_heap p st = false -> real_free st = true ->
  let hdr := ptr_sub p alignment in
  let size := load_size_t (mem st) hdr in
  let extra := load_size_t (mem st) (ptr_add hdr sizeof_size_t) in
  exists st',
    free p st = Ret tt st' /\
    counters st' = account_free size (counters st) /\
    mem st' = mem st /\
    trace st' =
      EvRealFree (ptr_sub hdr extra)
      :: callback_event st (to_long_long (curr st - size))
      ++ (if sentinel_ok hdr (mem st) then [] else [DiagFreeNoSentinel hdr])
      ++ trace st /\
    same_setup st st'.
Proof.
  intros Hp Harena Hready hdr size extra. apply Z.eqb_neq in Hp.
  unfold free. rewrite Hp, Harena, Hready. cbn [negb]. fold hdr.
  set (st1 := if sentinel_ok hdr (mem st) then st
              else emit (DiagFreeNoSentinel hdr) st).
  assert (E1 : mem st1 = mem st /\ counters st1 = counters st /\
               same_setup st st1 /\
               trace st1 = (if sentinel_ok hdr (mem st) then []
                            else [DiagFreeNoSentinel hdr]) ++ trace st /\
               callback_event st1 = callback_event st).
  { unfold st1. destruct (sentinel_ok hdr (mem st)); cbn;
      repeat split; apply same_setup_refl. }
  destruct E1 as (Em & Ec & Ef & Et & Ecb). rewrite Em. fold size extra.
  eexists. split; [reflexivity|].
  destruct (dec_count_fields size st1) as (_ & _ & _ & _ & Ht).
  destruct (dec_count_frame size st1) as (Hm & _).
  pose proof (dec_count_same_setup size st1) as Hf.
  pose proof (dec_count_counters size st1) as Hc.
  assert (Ecur : curr st1 = curr st) by (unfold counters in Ec; congruence).
  split; [|split; [|split]].
  - change (counters (dec_count size st1) = account_free size (counters st)).
    now rewrite Hc, Ec.
  - change (mem (dec_count size st1) = mem st). congruence.
  - cbn [trace emit]. rewrite Ht, Et, Ecb, Ecur. reflexivity.
  - apply (same_setup_trans _ _ _ Ef). exact Hf.
Qed.

(** ** Sequences of [malloc] and [free] calls *)

Lemma lookup_live_In (p s : Z) (live : list (Z * Z)) :
  lookup_live p live = Some s -> In (p, s) live.
Proof.
  induction live as [|[q t] live IH]; cbn; [discriminate|].
  destruct (Z.eqb_spec q p) as [->|_].
  - intros [= ->]. now left.
  - intros H. right. now apply IH.
Qed.

Lemma remove_live_incl (p : Z) (live : list (Z * Z)) (b : Z * Z) :
  In b (remove_live p live) -> In b live.
Proof.
  induction live as [|[q t] live IH]; cbn; [tauto|].
  destruct (q =? p); cbn; [tauto|]. intros [H|H]; [now left | right; now apply IH].
Qed.

Lemma sum_live_remove (p s : Z) (live : list (Z * Z)) :
  lookup_live p live = Some s ->
  sum_live (remove_live p live) = sum_live live - s.
Proof.
  induction live as [|[q t] live IH]; cbn; [discriminate|].
  destruct (q =? p); cbn.
  - intros [= ->]. lia.
  - intros H. rewrite IH by exact H. lia.
Qed.

Lemma to_size_t_shift (x k : Z) :
  to_size_t (to_long_long x + k) = to_size_t (x + k).
Proof.
  unfold to_size_t. rewrite Z.add_mod by lia.
  fold (to_size_t (to_long_long x)). rewrite to_size_t_to_long_long.
  unfold to_size_t. now rewrite <- Z.add_mod by lia.
Qed.

(** The [current] of the specified ledger moves by the sizes of the blocks
    that became live and of those that ceased to be. *)
Lemma account_current (base use : Z) (ops : list op) :
  forall (live live' : list (Z * Z)) (c : Z * Z * Z * Z),
    live_after base use live ops = Some live' ->
    to_size_t (current_of (account live ops c))
    = to_size_t (current_of c + sum_live live' - sum_live live).
Proof.
  induction ops as [|[r size|p] ops IH]; intros live live' c; cbn.
  - intros [= ->]. f_equal. lia.
  - destruct (_ && _); [|discriminate]. intros H.
    rewrite (IH _ _ _ H). destruct c as [[[cur pk] tot] n]. cbn.
    replace (to_long_long (cur + size) + sum_live live' - (size + sum_live live))
      with (to_long_long (cur + size) + (sum_live live' - (size + sum_live live)))
      by lia.
    rewrite to_size_t_shift. f_equal. lia.
  - destruct (lookup_live p live) as [s|] eqn:E; [|discriminate]. intros H.
    rewrite (IH _ _ _ H), (sum_live_remove _ _ _ E).
    destruct c as [[[cur pk] tot] n]. cbn.
    replace (to_long_long (cur - s) + sum_live live' - (sum_live live - s))
      with (to_long_long (cur - s) + (sum_live live' - (sum_live live - s)))
      by lia.
    rewrite to_size_t_shift. f_equal. lia.
Qed.

Lemma on_init_heap_same_setup (p : Z) (st st' : state) :
  same_setup st st' -> on_init_heap p st' = on_init_heap p st.
Proof.
  unfold same_setup, on_init_heap. intros (_ & _ & _ & _ & -> & -> & _).
  reflexivity.
Qed.

(** The code keeps the ledger of the specification along every sequence the
    table of live blocks accepts, and keeps the headers of the live blocks. *)
Lemma run_accounts (ops : list op) :
  forall (live live' : list (Z * Z)) (st : state),
    real_malloc st = true -> real_free st = true ->
    headers_intact live st ->
    live_after (init_heap st) (init_heap_use st) live ops = Some live' ->
    exists st',
      run ops st = Ret tt st' /\
      headers_intact live' st' /\
      counters st' = account live ops (counters st) /\
      same_setup st st'.
Proof.
  induction ops as [|[r size|p] ops IH]; intros live live' st Hm Hf Hinv; cbn.
  - intros [= <-]. exists st. repeat split; assumption.
  - destruct (_ && _) eqn:E; [|discriminate]. intros Hlive.
    unfold fresh_block in E. rewrite !andb_true_iff in E.
    destruct E as [[Hs0 Hs1] [[[Hr0 Hr1] H0] H]].
    assert (Hs : 0 < size < 2 ^ 64) by lia.
    assert (Hr : header_at r) by (unfold header_at; lia).
    destruct (malloc_ready r size st Hm) as (st1 & E1 & Hc & Hmem & _ & Hsame);
      [lia | lia |].
    rewrite E1. cbn. 
    assert (Hinv1 : headers_intact ((r + alignment, size) :: live) st1).
    { constructor.
      - cbn [fst snd]. replace (r + alignment - alignment) with r by lia.
        destruct (header_fields r size 0 (mem st) Hr) as (L1 & L2 & _);
          [unfold is_size_t; lia | unfold is_size_t; lia |].
        rewrite (on_init_heap_same_setup _ _ _ Hsame), Hmem.
        unfold on_init_heap. apply negb_true_iff in H0.
        rewrite ptr_add_small in L2
          by (unfold header_at, alignment, sizeof_size_t, is_size_t in *; lia).
        repeat split; try assumption; unfold is_size_t; lia.
      - unfold headers_intact in Hinv. rewrite Forall_forall in Hinv.
        apply Forall_forall. intros b Hb.
        destruct (Hinv b Hb) as (B1 & B2 & B3 & B4 & B5).
        rewrite forallb_forall in H. specialize (H b).
        rewrite (on_init_heap_same_setup _ _ _ Hsame), Hmem.
        assert (Hap : apart r b = true) by (apply H; now apply list_elem_of_In).
        unfold apart in Hap. apply orb_prop in Hap.
        unfold header_at, alignment, sizeof_size_t in *.
        rewrite !write_header_other
          by (unfold header_at, alignment; lia).
        tauto. }
    destruct Hsame as (S1 & S2 & S3 & S4 & S5 & S6 & S7 & S8).
    destruct (IH ((r + alignment, size) :: live) live' st1) as (st' & R & I & C & S);
      [congruence | congruence | exact Hinv1 | now rewrite S5, S6 |].
    exists st'. rewrite C, Hc. repeat split; try assumption.
    all: unfold same_setup in S; intuition congruence.
  - destruct (lookup_live p live) as [s|] eqn:E; [|discriminate]. intros Hlive.
    pose proof (lookup_live_In _ _ _ E) as Hin.
    unfold headers_intact in Hinv. rewrite Forall_forall in Hinv.
    destruct (Hinv (p, s)) as (B1 & B2 & B3 & B4 & B5);
      [now apply list_elem_of_In|].
    cbn [fst snd] in *.
    assert (Hsub : ptr_sub p alignment = p - alignment).
    { apply ptr_sub_small. unfold header_at, alignment, is_size_t in *. lia. }
    destruct (free_real p st) as (st1 & E1 & Hc & Hmem & _ & Hsame);
      [unfold header_at, alignment in B2; lia | assumption | assumption |].
    rewrite Hsub, B4 in Hc. rewrite E1.
    assert (Hinv1 : headers_intact (remove_live p live) st1).
    { apply Forall_forall. intros b Hb.
      apply list_elem_of_In, remove_live_incl, list_elem_of_In in Hb.
      rewrite (on_init_heap_same_setup _ _ _ Hsame), Hmem.
      now apply Hinv. }
    destruct Hsame as (S1 & S2 & S3 & S4 & S5 & S6 & S7 & S8).
    destruct (IH (remove_live p live) live' st1) as (st' & R & I & C & S);
      [congruence | congruence | exact Hinv1 | now rewrite S5, S6 |].
    exists st'. rewrite C, Hc. repeat split; try assumption.
    all: unfold same_setup in S; intuition congruence.
Qed.

Lemma init_start (base : Z) :
  init [] found_quietly found_quietly found_quietly found_quietly (start base) = Ret tt (ready_state base).
Proof. reflexivity. Qed.

(** While the counters stay in the range of a [long long] the arithmetic of
    the ledger is that of the integers. *)
Lemma account_allocate_in_range (size cur pk tot n : Z) :
  is_long_long (cur + size) -> is_long_long (tot + size) -> is_long_long (n + 1) ->
  account_allocate size (cur, pk, tot, n)
  = (cur + size, Z.max pk (cur + size), tot + size, n + 1).
Proof.
  intros H1 H2 H3. unfold account_allocate.
  now rewrite !to_long_long_small by assumption.
Qed.

Lemma account_free_in_range (size cur pk tot n : Z) :
  is_long_long (cur - size) ->
  account_free size (cur, pk, tot, n) = (cur - size, pk, tot, n).
Proof.
  intros H1. unfold account_free. now rewrite to_long_long_small by assumption.
Qed.

(** C1. Take any finite sequence of [malloc] and [free] calls made when
    [real_malloc] and [real_free] are resolved, in which each [malloc] asks
    for a size in (0, 2^64) and is answered by the real allocator with a
    fresh block, and each [free] is given the pointer of a block that is
    live. Every call returns, and the counters are the ledger of the
    specification: each [malloc(s)] adds [s] to [curr] and to [total], adds 1
    to [num_allocs] and sets [peak] to the larger of [peak] and the new
    [curr]; each [free] of a block requested with size [s] takes exactly [s]
    from [curr] and leaves [peak], [total] and [num_allocs] alone (the
    additions and subtractions are those of the 64-bit counters). At the
    end [malloc_count_current()] has moved by the sizes of the blocks that
    are still live; when every block has been freed it is back to what it
    was, so 0 when it started at 0. *)
Theorem malloc_free_sequence_ledger
    (ops : list op) (live' : list (Z * Z)) (st : state) :
  real_malloc st = true -> real_free st = true ->
  live_after (init_heap st) (init_heap_use st) [] ops = Some live' ->
  exists st',
    run ops st = Ret tt st' /\
    counters st' = account [] ops (counters st) /\
    malloc_count_current st'
      = to_size_t (malloc_count_current st + sum_live live') /\
    (live' = [] -> malloc_count_current st' = malloc_count_current st) /\
    (live' = [] -> curr st = 0 -> malloc_count_current st' = 0).
Proof.
  intros Hm Hf Hlive.
  destruct (run_accounts ops [] live' st Hm Hf) as (st' & R & _ & C & _);
    [constructor | exact Hlive |].
  exists st'. split; [exact R|]. split; [exact C|].
  assert (Hcur : malloc_count_current st'
                 = to_size_t (malloc_count_current st + sum_live live')).
  { unfold malloc_count_current.
    change (curr st') with (current_of (counters st')). rewrite C.
    rewrite (account_current _ _ _ _ _ _ Hlive). cbn [sum_live current_of counters fst].
    rewrite Z.sub_0_r. unfold to_size_t. now rewrite Z.add_mod_idemp_l by lia. }
  split; [exact Hcur|]. split.
  - intros ->. rewrite Hcur. cbn [sum_live]. rewrite Z.add_0_r.
    unfold malloc_count_current, to_size_t. now rewrite Z.mod_mod by lia.
  - intros -> H0. rewrite Hcur. unfold malloc_count_current. rewrite H0.
    reflexivity.
Qed.

(** The scenario of the specification: [malloc(100)], [malloc(50)], [free]
    of the first pointer, [free] of the second, from a fresh ledger. The
    counters are listed as [(curr, peak, total, num_allocs)]. *)
Lemma scenario_100_50 :
  let st := ready_state 0x600000 in
  let m1 := OpMalloc 0x1000 100 in
  let m2 := OpMalloc 0x2000 50 in
  let f1 := OpFree 0x1020 in
  let f2 := OpFree 0x2020 in
  (exists st1, run [m1] st = Ret tt st1 /\ counters st1 = (100, 100, 100, 1)) /\
  (exists st2, run [m1; m2] st = Ret tt st2 /\
     counters st2 = (150, 150, 150, 2)) /\
  (exists st3, run [m1; m2; f1] st = Ret tt st3 /\
     counters st3 = (50, 150, 150, 2)) /\
  (exists st4, run [m1; m2; f1; f2] st = Ret tt st4 /\
     counters st4 = (0, 150, 150, 2) /\ malloc_count_current st4 = 0).
Proof.
  intros st m1 m2 f1 f2.
  split; [|split; [|split]].
  - destruct (malloc_free_sequence_ledger [m1] [(0x1020, 100)] st
                eq_refl eq_refl eq_refl) as (s & R & C & _).
    exists s. split; [exact R|]. rewrite C. reflexivity.
  - destruct (malloc_free_sequence_ledger [m1; m2]
                [(0x2020, 50); (0x1020, 100)] st
                eq_refl eq_refl eq_refl) as (s & R & C & _).
    exists s. split; [exact R|]. rewrite C. reflexivity.
  - destruct (malloc_free_sequence_ledger [m1; m2; f1] [(0x2020, 50)] st
                eq_refl eq_refl eq_refl) as (s & R & C & _).
    exists s. split; [exact R|]. rewrite C. reflexivity.
  - destruct (malloc_free_sequence_ledger [m1; m2; f1; f2] [] st
                eq_refl eq_refl eq_refl) as (s & R & C & _ & _ & Z0).
    exists s. split; [exact R|]. split; [rewrite C; reflexivity|].
    now apply Z0.
Defined.

(** ** [realloc] through the real allocator *)

(** The last path of [realloc]: neither a pointer of the init heap, nor a
    null pointer, nor a zero size. *)
Lemma realloc_real (r p size : Z) (st : state) :
  p <> 0 -> size <> 0 -> on_init_heap p st = false ->
  real_realloc st = true -> r <> 0 ->
  let hdr := ptr_sub p alignment in
  let oldsize := load_size_t (mem st) hdr in
  let c1 := to_long_long (curr st - oldsize) in
  exists st',
    realloc r p size st = Ret (ptr_add (ptr_add r alignment) 0) st' /\
    counters st' = account_allocate size (account_free oldsize (counters st)) /\
    trace st' =
      EvRealRealloc hdr (to_size_t (size + alignment + 0)) r
      :: callback_event st (to_long_long (c1 + size))
      ++ callback_event st c1
      ++ (if sentinel_ok hdr (mem st) then [] else [DiagFreeNoSentinel hdr])
      ++ trace st /\
    same_setup st st'.
Proof.
  intros Hp Hs Harena Hready Hr hdr oldsize c1.
  apply Z.eqb_neq in Hp, Hs, Hr.
  unfold realloc. rewrite Harena, Hs, Hp. fold hdr.
  set (st1 := if sentinel_ok hdr (mem st) then st
              else emit (DiagFreeNoSentinel hdr) st).
  assert (E1 : mem st1 = mem st /\ counters st1 = counters st /\
               same_setup st st1 /\
               trace st1 = (if sentinel_ok hdr (mem st) then []
                            else [DiagFreeNoSentinel hdr]) ++ trace st /\
               callback_event st1 = callback_event st).
  { unfold st1. destruct (sentinel_ok hdr (mem st)); cbn;
      repeat split; apply same_setup_refl. }
  destruct E1 as (Em & Ec & Ef & Et & Ecb). rewrite Em. fold oldsize.
  set (st2 := set_mem (store_size_t (mem st) (ptr_add hdr sizeof_size_t) 0) st1).
  assert (E2 : counters st2 = counters st /\ same_setup st st2 /\
               trace st2 = trace st1 /\ callback_event st2 = callback_event st).
  { repeat split; try apply Ef; try exact Ec. exact Ecb. }
  destruct E2 as (Ec2 & Ef2 & Et2 & Ecb2).
  set (st2d := dec_count oldsize st2).
  set (st3 := inc_count size st2d).
  pose proof (dec_count_counters oldsize st2) as Hdc.
  pose proof (dec_count_same_setup oldsize st2) as Hdf.
  destruct (dec_count_fields oldsize st2) as (Hdcur & _ & _ & _ & Hdt).
  pose proof (inc_count_counters size st2d) as Hic.
  pose proof (inc_count_same_setup size st2d) as Hif.
  destruct (inc_count_fields size st2d) as (_ & _ & _ & _ & Hit).
  fold st2d in Hdc, Hdf, Hdcur, Hdt. fold st3 in Hic, Hif, Hit.
  assert (Hrr : real_realloc st3 = true).
  { destruct Hif as (_ & _ & _ & -> & _). destruct Hdf as (_ & _ & _ & -> & _).
    destruct Ef2 as (_ & _ & _ & -> & _). exact Hready. }
  rewrite Hrr. cbn [negb]. rewrite Hr.
  eexists. split; [reflexivity|].
  assert (Ecur : curr st2 = curr st) by (unfold counters in Ec2; congruence).
  assert (Ecbd : callback_event st2d = callback_event st).
  { rewrite <- Ecb2. unfold callback_event.
    destruct Hdf as (_ & _ & _ & _ & _ & _ & -> & ->). reflexivity. }
  split; [|split].
  - change (counters st3
            = account_allocate size (account_free oldsize (counters st))).
    now rewrite Hic, Hdc, Ec2.
  - cbn [trace emit set_mem]. rewrite Hit, Hdt, Et2, Et, Ecbd, Ecb2, Hdcur, Ecur.
    fold c1. reflexivity.
  - change (same_setup st st3).
    apply (same_setup_trans _ _ _ Ef2), (same_setup_trans _ _ _ Hdf), Hif.
Qed.

(** ** The header at [free] and [realloc] time *)

(** What [aligned_alloc] leaves behind once the real allocator is resolved:
    the header sits [extra] bytes into the block the real allocator handed
    out, and records the size and [extra]. *)
Lemma aligned_alloc_ready (r al size : Z) (st : state) :
  let extra := Z.max 0 (al - alignment) in
  real_aligned_alloc st = true -> is_size_t al -> is_size_t size ->
  size <> 0 -> r <> 0 -> header_at (r + extra) -> 0 <= r ->
  exists st',
    aligned_alloc r al size st = Ret (r + extra + alignment) st' /\
    counters st' = account_allocate size (counters st) /\
    load_size_t (mem st') (r + extra) = size /\
    load_size_t (mem st') (r + extra + sizeof_size_t) = extra /\
    sentinel_ok (r + extra) (mem st') = true /\
    trace st' =
      callback_event st (to_long_long (curr st + size))
      ++ EvRealAlignedAlloc al (to_size_t (size + alignment + extra)) r
      :: trace st /\
    same_setup st st'.
Proof.
  intros extra Hready Hal Hsize Hs Hr Hh Hr0.
  assert (Hex : is_size_t extra)
    by (unfold extra, is_size_t, alignment in *; lia).
  apply Z.eqb_neq in Hs, Hr.
  unfold aligned_alloc. rewrite Hs, Hready. cbn [negb].
  rewrite (extra_alignment_max al Hal). fold extra. rewrite Hr.
  assert (P1 : ptr_add r extra = r + extra)
    by (apply ptr_add_small; unfold header_at, is_size_t, alignment in *; lia).
  assert (P2 : ptr_add (r + extra) alignment = r + extra + alignment)
    by (apply ptr_add_small; unfold header_at, is_size_t, alignment in *; lia).
  assert (P3 : ptr_add (r + extra) sizeof_size_t = r + extra + sizeof_size_t)
    by (apply ptr_add_small;
        unfold header_at, is_size_t, alignment, sizeof_size_t in *; lia).
  rewrite P1, P2.
  set (st1 := emit (EvRealAlignedAlloc al
                      (to_size_t (size + alignment + extra)) r) st).
  eexists. split; [reflexivity|].
  destruct (inc_count_fields size st1) as (_ & _ & _ & _ & Ht).
  destruct (inc_count_frame size st1) as (Hm & _).
  pose proof (inc_count_same_setup size st1) as Hf.
  destruct (header_fields (r + extra) size extra (mem (inc_count size st1))
              Hh Hsize Hex) as (L1 & L2 & L3).
  rewrite P3 in L2.
  cbn [mem set_mem trace]. repeat split; try assumption; try apply Hf.
  apply (inc_count_counters size st1).
Qed.

(** [free] of a pointer that [aligned_alloc] returned hands the real [free]
    the pointer the real allocator handed out, and takes from [curr] the
    size that was asked for. *)
Lemma free_after_aligned_alloc (r al size : Z) (st : state) :
  let extra := Z.max 0 (al - alignment) in
  real_aligned_alloc st = true -> real_free st = true ->
  is_size_t al -> is_size_t size -> size <> 0 -> 0 < r ->
  header_at (r + extra) ->
  on_init_heap (r + extra + alignment) st = false ->
  exists p st1 st2,
    aligned_alloc r al size st = Ret p st1 /\
    free p st1 = Ret tt st2 /\
    counters st2 = account_free size (counters st1) /\
    trace st2 =
      EvRealFree r
      :: callback_event st1 (to_long_long (curr st1 - size)) ++ trace st1.
Proof.
  intros extra Hra Hrf Hal Hsize Hs Hr Hh Harena.
  destruct (aligned_alloc_ready r al size st Hra Hal Hsize Hs)
    as (st1 & E1 & _ & L1 & L2 & L3 & _ & Hsame); [lia | exact Hh | lia |].
  fold extra in E1, L1, L2, L3.
  assert (Hsub : ptr_sub (r + extra + alignment) alignment = r + extra).
  { unfold ptr_sub. replace (r + extra + alignment - alignment) with (r + extra) by lia.
    apply to_size_t_small. unfold header_at, is_size_t, alignment in *. lia. }
  destruct (free_real (r + extra + alignment) st1) as (st2 & E2 & C & _ & T & _).
  { unfold header_at, alignment in *. lia. }
  { now rewrite (on_init_heap_same_setup _ _ _ Hsame). }
  { destruct Hsame as (_ & _ & -> & _). exact Hrf. }
  rewrite Hsub in C, T.
  rewrite (ptr_add_small (r + extra) sizeof_size_t) in T
    by (unfold header_at, is_size_t, alignment, sizeof_size_t in *; lia).
  rewrite L1 in C, T. rewrite L2, L3 in T.
  replace (ptr_sub (r + extra) extra) with r in T.
  2:{ unfold ptr_sub. replace (r + extra - extra) with r by lia.
      symmetry. apply to_size_t_small.
      unfold header_at, is_size_t, alignment, extra in *. lia. }
  exists (r + extra + alignment), st1, st2. repeat split; assumption.
Qed.

(** C2, the failing input. [aligned_alloc(64, 10)], answered with 0x1000 by
    the real allocator, returns 0x1040 and records the extra alignment 32 in
    the header at 0x1020. [realloc] of that pointer to 20 bytes then hands
    the real [realloc] the pointer 0x1020, the address of the header, and not
    0x1000, the pointer the real allocator handed out; and it has replaced
    the extra alignment in the header by 0. *)
Theorem realloc_forgets_extra_alignment :
  let o1 := aligned_alloc 0x1000 64 10 (ready_state 0x600000) in
  let st1 := state_of o1 in
  let o2 := realloc 0x3000 0x1040 20 st1 in
  let st2 := state_of o2 in
  value_of o1 = Some 0x1040 /\
  load_size_t (mem st1) (0x1040 - alignment) = 10 /\
  load_size_t (mem st1) (0x1040 - alignment + sizeof_size_t) = 32 /\
  0x1040 - alignment - 32 = 0x1000 /\
  value_of o2 = Some 0x3020 /\
  trace st2 = [EvRealRealloc 0x1020 52 0x3000;
               EvRealAlignedAlloc 64 74 0x1000] /\
  load_size_t (mem st2) (0x1040 - alignment + sizeof_size_t) = 0.
Proof. cbv zeta. evaluate_each. Qed.

(** ** The edge cases of [realloc] *)

Lemma ptr_sub_add_back (p n : Z) : is_size_t p -> ptr_add (ptr_sub p n) n = p.
Proof.
  intros Hp. unfold ptr_add, ptr_sub, to_size_t.
  rewrite Z.add_mod_idemp_l by lia.
  replace (p - n + n) with p by lia. apply Z.mod_small. exact Hp.
Qed.

Lemma free_on_init_heap (p : Z) (st : state) :
  on_init_heap p st = true -> free p st = Ret tt st.
Proof.
  intros H. unfold free. rewrite H. now destruct (p =? 0).
Qed.

(** C4 as it is worded fails on the init heap: for a block that [malloc]
    carved from the init heap, [realloc(p, 0)] returns [p], not the null
    pointer. *)
Lemma realloc_zero_on_init_heap_returns_block :
  ~ (forall (r p : Z) (st : state),
       exists st', free p st = Ret tt st' /\ realloc r p 0 st = Ret 0 st').
Proof.
  intros H.
  destruct (malloc 0 16 (start 0x600000)) as [q st1|st1|st1] eqn:E;
    [|discriminate E|discriminate E].
  destruct (H 0 0x600020 st1) as (st' & _ & R).
  injection E as <- <-. vm_compute in R. discriminate R.
Qed.

(** C4, amended. The array [init_heap] is not at the null address. For
    every size [n], [realloc(NULL, n)] is [malloc(n)]. For every pointer [p]
    outside the init heap, [realloc(p, 0)] is [free(p)] and returns the null
    pointer. For a pointer [p] of the init heap, [realloc(p, 0)] does not
    free: it keeps the block, stores 0 as its size in the header, leaves
    the counters alone and returns [p] (where [free(p)] does nothing). *)
Theorem realloc_edge_cases (r p n : Z) (st : state) :
  0 < init_heap st -> is_size_t p ->
  realloc r 0 n st = malloc r n st /\
  (on_init_heap p st = false ->
   exists st', free p st = Ret tt st' /\ realloc r p 0 st = Ret 0 st') /\
  (on_init_heap p st = true ->
   free p st = Ret tt st /\
   exists st',
     realloc r p 0 st = Ret p st' /\ p <> 0 /\
     load_size_t (mem st') (ptr_sub p alignment) = 0 /\
     counters st' = counters st /\ same_setup st st').
Proof.
  intros Hbase Hp.
  assert (Hnull : on_init_heap 0 st = false).
  { unfold on_init_heap, in_arena.
    destruct (Z.leb_spec (init_heap st) 0); [lia | reflexivity]. }
  split; [|split].
  - unfold realloc. rewrite Hnull.
    destruct (n =? 0) eqn:En.
    + apply Z.eqb_eq in En. subst n. reflexivity.
    + reflexivity.
  - intros Hout. unfold realloc. rewrite Hout. cbn [Z.eqb].
    unfold free. destruct (p =? 0); [eexists; split; reflexivity|].
    rewrite Hout. destruct (negb (real_free st)); eexists; split; reflexivity.
  - intros Hin. split; [now apply free_on_init_heap|].
    assert (Hp0 : p <> 0).
    { unfold on_init_heap, in_arena in Hin. apply andb_prop in Hin.
      destruct Hin as [Hin _]. apply Z.leb_le in Hin. lia. }
    unfold realloc. rewrite Hin.
    set (hdr := ptr_sub p alignment).
    set (st1 := if sentinel_ok hdr (mem st) then st
                else emit (DiagReallocNoSentinel hdr) st).
    assert (E1 : counters st1 = counters st /\ same_setup st st1).
    { unfold st1. destruct (sentinel_ok hdr (mem st)); cbn;
        repeat split; apply same_setup_refl. }
    pose proof (load_size_t_range (mem st1) hdr) as Hold.
    destruct (Z.leb_spec 0 (load_size_t (mem st1) hdr)) as [_|Hneg];
      [|unfold is_size_t in Hold; lia].
    unfold hdr at 1. rewrite (ptr_sub_add_back p alignment Hp).
    eexists. split; [reflexivity|]. split; [exact Hp0|].
    cbn [mem set_mem]. split; [|exact E1].
    apply load_store_eq. unfold is_size_t. lia.
Qed.

(** The three cases on a state of the process: the init heap at 0x600000
    holds one block of 16 bytes, then the real allocator was resolved and
    [malloc(8)] was answered with 0x1000. *)
Lemma realloc_edge_cases_example :
  let st :=
    match malloc 0 16 (start 0x600000) with
    | Ret _ st1 =>
        match init [] found_quietly found_quietly found_quietly found_quietly st1 with
        | Ret _ st2 =>
            match malloc 0x1000 8 st2 with
            | Ret _ st3 => st3
            | Exit st3 | Fault st3 => st3
            end
        | Exit st2 | Fault st2 => st2
        end
    | Exit st1 | Fault st1 => st1
    end in
  realloc 0x2000 0 64 st = malloc 0x2000 64 st /\
  (exists st', free 0x1020 st = Ret tt st' /\
     realloc 0 0x1020 0 st = Ret 0 st') /\
  (exists st', realloc 0 0x600020 0 st = Ret 0x600020 st' /\
     load_size_t (mem st') 0x600000 = 0).
Proof.
  intros st.
  assert (Hb : 0 < init_heap st) by (vm_compute; reflexivity).
  assert (H1 : is_size_t 0x1020) by (unfold is_size_t; lia).
  assert (H2 : is_size_t 0x600020) by (unfold is_size_t; lia).
  split; [|split].
  - exact (proj1 (realloc_edge_cases 0x2000 0x1020 64 st Hb H1)).
  - destruct (realloc_edge_cases 0 0x1020 0 st Hb H1) as (_ & F & _).
    apply F. vm_compute. reflexivity.
  - destruct (realloc_edge_cases 0 0x600020 0 st Hb H2) as (_ & _ & A).
    destruct A as (_ & st' & R & _ & L & _); [vm_compute; reflexivity|].
    exists st'. split; [exact R|exact L].
Defined.

(** ** Allocations on the init heap *)



(** [free] never touches the setup, whatever it is given. *)
Lemma free_same_setup (p : Z) (st : state) (u : unit) (st' : state) :
  free p st = Ret u st' -> same_setup st st'.
Proof.
  unfold free. destruct (p =? 0); [intros [= _ <-]; apply same_setup_refl|].
  destruct (on_init_heap p st); [intros [= _ <-]; apply same_setup_refl|].
  destruct (negb (real_free st));
    [intros [= _ <-]; unfold same_setup; cbn; repeat split|].
  intros [= _ <-].
  set (st1 := if sentinel_ok _ _ then st else _).
  assert (E1 : same_setup st st1).
  { unfold st1. destruct (sentinel_ok _ _); unfold same_setup; cbn; repeat split. }
  apply (same_setup_trans _ _ _ E1).
  apply (dec_count_same_setup _ st1).
Qed.

(** Once [real_malloc] is resolved, [malloc] leaves the init heap alone. *)
Lemma malloc_resolved_same_setup (r size p : Z) (st st' : state) :
  real_malloc st = true -> malloc r size st = Ret p st' -> same_setup st st'.
Proof.
  intros Hready. unfold malloc. rewrite Hready.
  destruct (size =? 0); [intros [= _ <-]; apply same_setup_refl|].
  destruct (r =? 0); [discriminate|]. intros [= _ <-].
  apply (inc_count_same_setup size (emit _ st)).
Qed.

(** The path of [malloc] through the init heap, for a request that fits. *)
Lemma malloc_on_init_heap (r size : Z) (st : state) :
  let ret := init_heap st + init_heap_use st in
  real_malloc st = false -> 0 < size -> 0 <= init_heap_use st ->
  init_heap_use st + alignment + size <= INIT_HEAP_SIZE ->
  0 < init_heap st -> init_heap st + INIT_HEAP_SIZE < 2 ^ 64 ->
  header_at ret /\
  exists st1,
    malloc r size st = Ret (ret + alignment) st1 /\
    mem st1 = write_header ret size 0 (mem st) /\
    init_heap st1 = init_heap st /\
    init_heap_use st1 = init_heap_use st + alignment + size /\
    real_malloc st1 = false /\ real_free st1 = real_free st /\
    counters st1 = counters st /\ trace st1 = trace st.
Proof.
  intros ret Hnr Hs Hu Hfit Hb Hend.
  assert (Hsz : (size =? 0) = false) by (apply Z.eqb_neq; lia).
  assert (Esum : to_size_t (init_heap_use st + alignment + size)
                 = init_heap_use st + alignment + size)
    by (apply to_size_t_small;
        unfold is_size_t, alignment, INIT_HEAP_SIZE in *; lia).
  assert (Hret : ptr_add (init_heap st) (init_heap_use st) = ret).
  { apply ptr_add_small.
    unfold is_size_t, INIT_HEAP_SIZE, alignment in *. lia. }
  assert (Hh : header_at ret).
  { unfold header_at, ret, INIT_HEAP_SIZE, alignment in *. lia. }
  split; [exact Hh|].
  unfold malloc. rewrite Hsz, Hnr, Esum.
  destruct (Z.ltb_spec INIT_HEAP_SIZE (init_heap_use st + alignment + size));
    [lia|].
  rewrite Hret, (ptr_add_small ret alignment)
    by (unfold header_at, is_size_t, alignment in *; lia).
  replace (init_heap_use st + (alignment + size))
    with (init_heap_use st + alignment + size) by lia.
  rewrite Esum. eexists. split; [reflexivity|]. cbn.
  repeat split. exact Hnr.
Qed.

(** *** The fill of the init heap never decreases *)

Lemma same_setup_set_mem (m : gmap Z Z) (st st' : state) :
  same_setup st st' -> same_setup st (set_mem m st').
Proof. unfold same_setup. cbn. tauto. Qed.

Lemma same_setup_emit (e : event) (st st' : state) :
  same_setup st st' -> same_setup st (emit e st').
Proof. unfold same_setup. cbn. tauto. Qed.





Lemma aligned_alloc_same_setup (r al n p : Z) (st st' : state) :
  aligned_alloc r al n st = Ret p st' -> same_setup st st'.
Proof.
  unfold aligned_alloc.
  destruct (n =? 0); [intros [= _ <-]; apply same_setup_refl|].
  destruct (negb _); [discriminate|].
  destruct (r =? 0); [discriminate|]. intros E.
  apply Ret_inv in E. destruct E as [_ <-].
  apply (inc_count_same_setup n (emit _ st)).
Qed.






(** *** [init] as a sequence of actions *)









(** The condition on the later requests cannot be dropped: a later
    request that wraps the bound test rewinds [init_heap_use]. After
    [malloc(16)], the request [malloc(2^64 - 80)] passes the test
    (48 + 32 + 2^64 - 80 is 0 modulo 2^64) and leaves [init_heap_use] at 0;
    after [init], [free] of the first pointer is then outside the range of
    the init heap: it takes 16 from [curr] and calls the real [free] on the
    array. *)
Lemma later_wrapping_request_rewinds_the_init_heap :
  actions_fit [ActCall (CallMalloc 0 (2 ^ 64 - 80))] early_st1 = false /\
  malloc 0 (2 ^ 64 - 80) early_st1 = Ret 0x600050 rewound_st1 /\
  init_heap_use rewound_st1 = 0 /\
  init [] found_quietly found_quietly found_quietly found_quietly rewound_st1
    = Ret tt rewound_st2 /\
  free 0x600020 rewound_st2 = Ret tt rewound_st3 /\
  curr rewound_st3 = -16 /\
  trace rewound_st3 = [EvRealFree 0x600000].
Proof. evaluate_each. Qed.

(** ** The invariant [curr <= peak] *)





Lemma ledger_kept_trans (st1 st2 st3 : state) :
  ledger_kept st1 st2 -> ledger_kept st2 st3 -> ledger_kept st1 st3.
Proof. unfold ledger_kept. lia. Qed.







Lemma malloc_keeps_real_free (r n q : Z) (st st' : state) :
  malloc r n st = Ret q st' -> real_free st' = real_free st.
Proof.
  unfold malloc. destruct (n =? 0); [now intros [= _ <-]|].
  destruct (real_malloc st).
  - destruct (r =? 0); [discriminate|]. intros [= _ <-].
    cbn [real_free set_mem].
    now destruct (inc_count_frame n (emit (EvRealMalloc (to_size_t (alignment + n)) r) st))
      as (_ & _ & _ & _ & _ & -> & _).
  - destruct (_ <? _); [discriminate|]. now intros [= _ <-].
Qed.





(** ** A header without its sentinel *)

Lemma malloc_trace_extends (r n q : Z) (st st' : state) :
  malloc r n st = Ret q st' -> exists evs, trace st' = evs ++ trace st.
Proof.
  unfold malloc. destruct (n =? 0); [intros [= _ <-]; now exists []|].
  destruct (real_malloc st).
  - destruct (r =? 0); [discriminate|]. intros E.
    apply Ret_inv in E. destruct E as [_ <-].
    set (st1 := emit (EvRealMalloc (to_size_t (alignment + n)) r) st).
    destruct (inc_count_fields n st1) as (_ & _ & _ & _ & Ht).
    exists (callback_event st1 (to_long_long (curr st1 + n))
            ++ [EvRealMalloc (to_size_t (alignment + n)) r]).
    cbn [trace set_mem]. rewrite Ht, <- app_assoc. reflexivity.
  - destruct (_ <? _); [discriminate|]. intros E.
    apply Ret_inv in E. destruct E as [_ <-]. now exists [].
Qed.

(** C6 as it is worded fails for a block of the init heap. In [damaged_st]
    the resolver is ready and the header of the block at 0x600020 records
    the size 16 but has lost its sentinel. [realloc] of that pointer to 8
    bytes prints the corruption line and returns the same pointer: the
    ledger is not updated with the decoded size (the counters are as they
    were) and the real [realloc] is not called (the corruption line is the
    only event added). *)
Lemma realloc_on_init_heap_leaves_the_ledger :
  let o := realloc 0x1000 0x600020 8 damaged_st in
  let st' := state_of o in
  real_realloc damaged_st = true /\
  sentinel_ok 0x600000 (mem damaged_st) = false /\
  load_size_t (mem damaged_st) 0x600000 = 16 /\
  value_of o = Some 0x600020 /\
  counters st' = counters damaged_st /\
  trace st' = DiagReallocNoSentinel 0x600000 :: trace damaged_st.
Proof. cbv zeta. evaluate_each. Qed.

(** C6, amended. Let the header that [free] or [realloc] decodes for [p]
    not hold the sentinel. The call prints a corruption line and carries
    on as it does for an intact header; the mismatch never ends the process
    and is reported nowhere but on the error stream.
    - Outside the init heap ([p] not null): [free(p)], when [real_free] is
      resolved, takes the size it decoded from [curr] and calls the real
      [free] with the pointer it decoded; [realloc(p, size)] with
      [size > 0], when [real_realloc] is resolved and answers [r], not
      null, takes the decoded size from [curr], accounts [size], calls
      the real [realloc] and returns [r + alignment].
    - For a pointer of the init heap, [realloc] neither updates the ledger
      with the decoded size nor calls the real [realloc]. When [size] is at
      most the decoded size it returns [p] with the counters unchanged.
      Otherwise it goes through [malloc(size)]: it ends as [malloc] ends
      (only [malloc] can end the process here, when the init heap is full),
      and when [malloc] returns it returns the pointer of [malloc] with the
      counters as [malloc] left them. *)
Theorem sentinel_mismatch_is_reported_and_survived (r p size : Z) (st : state) :
  let hdr := ptr_sub p alignment in
  let decoded := load_size_t (mem st) hdr in
  let extra := load_size_t (mem st) (ptr_add hdr sizeof_size_t) in
  sentinel_ok hdr (mem st) = false ->
  (p <> 0 -> on_init_heap p st = false -> real_free st = true ->
   exists st',
     free p st = Ret tt st' /\
     counters st' = account_free decoded (counters st) /\
     trace st' =
       EvRealFree (ptr_sub hdr extra)
       :: callback_event st (to_long_long (curr st - decoded))
       ++ DiagFreeNoSentinel hdr :: trace st) /\
  (p <> 0 -> on_init_heap p st = false -> real_realloc st = true ->
   size <> 0 -> r <> 0 ->
   exists st',
     realloc r p size st = Ret (ptr_add (ptr_add r alignment) 0) st' /\
     counters st'
       = account_allocate size (account_free decoded (counters st)) /\
     trace st' =
       EvRealRealloc hdr (to_size_t (size + alignment + 0)) r
       :: callback_event st
            (to_long_long (to_long_long (curr st - decoded) + size))
       ++ callback_event st (to_long_long (curr st - decoded))
       ++ DiagFreeNoSentinel hdr :: trace st) /\
  (on_init_heap p st = true -> is_size_t p -> size <= decoded ->
   exists st',
     realloc r p size st = Ret p st' /\
     counters st' = counters st /\
     trace st' = DiagReallocNoSentinel hdr :: trace st) /\
  (on_init_heap p st = true -> is_size_t p -> decoded < size ->
   (real_free st = true -> real_malloc st = true) ->
   let st1 := emit (DiagReallocNoSentinel hdr) st in
   (forall s, malloc r size st1 = Exit s -> realloc r p size st = Exit s) /\
   (forall s, malloc r size st1 = Fault s -> realloc r p size st = Fault s) /\
   (forall q st2,
      malloc r size st1 = Ret q st2 ->
      exists st',
        realloc r p size st = Ret q st' /\
        counters st' = counters st2 /\
        In (DiagReallocNoSentinel hdr) (trace st') /\
        (trace st' = trace st2 \/
         trace st' = DiagFreeNoRealFree p :: trace st2))).
Proof.
  intros hdr decoded extra Hbad.
  split; [|split; [|split]].
  - intros Hp Harena Hready.
    destruct (free_real p st Hp Harena Hready) as (st' & E & C & _ & T & _).
    fold hdr in C, T. rewrite Hbad in T.
    exists st'. repeat split; assumption.
  - intros Hp Harena Hready Hs Hr.
    destruct (realloc_real r p size st Hp Hs Harena Hready Hr)
      as (st' & E & C & T & _).
    fold hdr in C, T. rewrite Hbad in T.
    exists st'. repeat split; assumption.
  - intros Harena Hp Hle.
    exists (set_mem (store_size_t (mem st) hdr size)
              (emit (DiagReallocNoSentinel hdr) st)).
    split; [|split; reflexivity].
    unfold realloc. rewrite Harena. cbv zeta. fold hdr. rewrite Hbad.
    cbn [mem emit]. fold decoded.
    apply Z.leb_le in Hle. rewrite Hle.
    unfold hdr. now rewrite (ptr_sub_add_back p alignment Hp).
  - intros Harena Hp Hgt Horder st1.
    assert (Eq : realloc r p size st
                 = call newptr, st2 <- malloc r size st1;
                   call _u, st4 <-
                     free p (set_mem (memcpy newptr p decoded (mem st2)) st2);
                   Ret newptr st4).
    { unfold realloc. rewrite Harena. cbv zeta. fold hdr.
      rewrite Hbad. cbn [mem emit]. fold decoded. fold st1.
      destruct (Z.leb_spec size decoded) as [Hbad'|_]; [lia|].
      unfold hdr. now rewrite (ptr_sub_add_back p alignment Hp). }
    split; [|split].
    + intros s Hm. rewrite Eq, Hm. reflexivity.
    + intros s Hm. rewrite Eq, Hm. reflexivity.
    + intros q st2 Hm. rewrite Eq, Hm. cbn [bind].
      set (st3 := set_mem (memcpy q p decoded (mem st2)) st2).
      destruct (malloc_trace_extends _ _ _ _ _ Hm) as [evs Hevs].
      assert (Hin : In (DiagReallocNoSentinel hdr) (trace st2)).
      { rewrite Hevs. apply in_or_app. right. now left. }
      assert (Hnd : free_decrements p st3 = false).
      { unfold free_decrements.
        destruct (real_free st) eqn:Hrf.
        - assert (Hrm : real_malloc st1 = true) by (now apply Horder).
          pose proof (malloc_resolved_same_setup _ _ _ _ _ Hrm Hm) as S12.
          assert (Hon : on_init_heap p st3 = true).
          { change (on_init_heap p st3) with (on_init_heap p st2).
            rewrite (on_init_heap_same_setup _ _ _ S12). exact Harena. }
          rewrite Hon. now destruct (p =? 0).
        - change (real_free st3) with (real_free st2).
          rewrite (malloc_keeps_real_free _ _ _ _ _ Hm).
          change (real_free st1) with (real_free st). rewrite Hrf.
          now rewrite andb_false_r. }
      unfold free_decrements in Hnd. unfold free.
      destruct (p =? 0);
        [exists st3; repeat split; [exact Hin | now left]|].
      destruct (on_init_heap p st3);
        [exists st3; repeat split; [exact Hin | now left]|].
      cbn [negb andb] in Hnd. rewrite Hnd. cbn [negb bind].
      eexists. split; [reflexivity|]. split; [reflexivity|].
      split; [right; exact Hin | now right].
Qed.

(** A block outside the init heap whose sentinel was overwritten
    ([malloc(100)] answered with 0x1000, then the last header word cleared),
    and the block of the init heap of [damaged_st]. *)
Lemma sentinel_mismatch_example :
  let st0 := ready_state 0x600000 in
  let st :=
    match malloc 0x1000 100 st0 with
    | Ret _ st1 => set_mem (store_size_t (mem st1) 0x1018 0) st1
    | Exit st1 | Fault st1 => st1
    end in
  (exists st',
     free 0x1020 st = Ret tt st' /\
     counters st' = account_free 100 (counters st) /\
     trace st' = EvRealFree 0x1000 :: DiagFreeNoSentinel 0x1000 :: trace st) /\
  (exists st',
     realloc 0x3000 0x1020 7 st = Ret 0x3020 st' /\
     counters st' = account_allocate 7 (account_free 100 (counters st)) /\
     trace st' =
       EvRealRealloc 0x1000 39 0x3000 :: DiagFreeNoSentinel 0x1000 :: trace st) /\
  (exists st',
     realloc 0x1000 0x600020 8 damaged_st = Ret 0x600020 st' /\
     counters st' = counters damaged_st).
Proof.
  intros st0 st.
  assert (Hp : 0x1020 <> 0) by lia.
  assert (Ha : on_init_heap 0x1020 st = false) by (vm_compute; reflexivity).
  assert (Hb : sentinel_ok (ptr_sub 0x1020 alignment) (mem st) = false)
    by (vm_compute; reflexivity).
  destruct (sentinel_mismatch_is_reported_and_survived 0x3000 0x1020 7 st Hb)
    as (F & R & _).
  assert (Hd : sentinel_ok (ptr_sub 0x600020 alignment) (mem damaged_st) = false)
    by (vm_compute; reflexivity).
  destruct (sentinel_mismatch_is_reported_and_survived 0x1000 0x600020 8
              damaged_st Hd) as (_ & _ & S & _).
  split; [|split].
  - destruct (F Hp Ha eq_refl) as (st' & E & C & T). exists st'.
    split; [exact E|]. split; [exact C|exact T].
  - assert (H7 : 7 <> 0) by lia. assert (H3 : 0x3000 <> 0) by lia.
    destruct (R Hp Ha eq_refl H7 H3) as (st' & E & C & T). exists st'.
    split; [exact E|]. split; [exact C|exact T].
  - assert (H1 : on_init_heap 0x600020 damaged_st = true)
      by (vm_compute; reflexivity).
    assert (H2 : is_size_t 0x600020) by (unfold is_size_t; lia).
    assert (H3 : 8 <= load_size_t (mem damaged_st) (ptr_sub 0x600020 alignment))
      by (vm_compute; discriminate).
    destruct (S H1 H2 H3) as (st' & E & C & _). exists st'.
    split; [exact E|exact C].
Defined.

(** ** The theorems above on concrete calls *)

(** The scenario of the specification: a request with alignment 4096 and
    size 10, answered by the real allocator with 0x10000. *)
Lemma aligned_alloc_4096_example :
  exists p st',
    aligned_alloc 0x10000 4096 10 (ready_state 0x600000) = Ret p st' /\
    p = 0x11000 /\ p mod 4096 = 0 /\
    trace st' = [EvRealAlignedAlloc 4096 4106 0x10000].
Proof.
  assert (Hk : 0 <= 12 < 64) by lia.
  assert (Hs : is_size_t 10) by (unfold is_size_t; lia).
  assert (Hn : 10 <> 0) by lia.
  assert (Hr : is_size_t 0x10000) by (unfold is_size_t; lia).
  assert (Hr0 : 0x10000 <> 0) by lia.
  assert (Hd : (2 ^ 12 | 0x10000)) by (exists 16; reflexivity).
  destruct (aligned_alloc_honours_alignment 0x10000 12 10 (ready_state 0x600000)
              Hk Hs Hn eq_refl Hr Hr0 Hd) as (p & st' & E & P & M & T).
  exists p, st'. split; [exact E|]. split; [exact P|]. split; [exact M|exact T].
Defined.

(** A product that wraps: [calloc(2^62 + 1, 4)] is [malloc(4)] and four
    zero bytes. *)
Lemma calloc_wrapping_example :
  exists st2,
    calloc 0x1000 (2 ^ 62 + 1) 4 (ready_state 0x600000) = Ret 0x1020 st2 /\
    counters st2 = (4, 4, 4, 1) /\
    read_byte (mem st2) 0x1020 = 0 /\ read_byte (mem st2) 0x1023 = 0.
Proof.
  destruct (calloc_is_malloc_of_wrapped_product 0x1000 (2 ^ 62 + 1) 4
              (ready_state 0x600000)) as [_ H].
  destruct H as (_ & _ & H); [vm_compute; discriminate|].
  destruct (malloc 0x1000 ((2 ^ 62 + 1) * 4 mod 2 ^ 64) (ready_state 0x600000))
    as [ret st1|st1|st1] eqn:E;
    [|vm_compute in E; discriminate E|vm_compute in E; discriminate E].
  destruct (H ret st1 eq_refl) as (st2 & Ec & C & _ & _ & Z0 & _).
  vm_compute in E. injection E as <- <-.
  exists st2. split; [exact Ec|]. split; [exact C|].
  split; [apply (Z0 0) | apply (Z0 3)]; vm_compute; split; discriminate || reflexivity.
Defined.

(** [posix_memalign(0x7000, 64, 10)] and [posix_memalign(0x7000, 64, 0)]. *)
Lemma posix_memalign_example :
  let st := ready_state 0x600000 in
  (exists st', posix_memalign 0x1000 0x7000 64 0 st = Ret 0 st' /\
     load_size_t (mem st') 0x7000 = 0 /\ counters st' = counters st) /\
  (exists st', posix_memalign 0x1000 0x7000 64 10 st = Ret 0 st' /\
     load_size_t (mem st') 0x7000 = 0x1040).
Proof.
  intros st.
  assert (Hm : 0x7000 <> 0) by lia.
  destruct (posix_memalign_returns_zero 0x1000 0x7000 64 10 st Hm)
    as (_ & (s0 & E0 & L0 & C0 & _) & _ & A & _).
  split.
  - exists s0. split; [exact E0|]. split; [exact L0|exact C0].
  - destruct (aligned_alloc 0x1000 64 10 st) as [p st1|st1|st1] eqn:E;
      [|vm_compute in E; discriminate E|vm_compute in E; discriminate E].
    destruct (A p st1 eq_refl) as (st' & Ep & L & _).
    vm_compute in E. injection E as <- <-.
    exists st'. split; [exact Ep|exact L].
Defined.

(** * Further properties of the code *)

(** ** The header codec *)

Lemma read_byte_store_out (m : gmap Z Z) (a v x : Z) :
  x < a \/ a + 8 <= x ->
  read_byte (store_size_t m a v) x = read_byte m x.
Proof.
  intros H. unfold store_size_t. apply read_byte_write_bytes_out.
  rewrite length_le_bytes. lia.
Qed.

(** The header occupies the words at offsets 0, 8 and 24: the bytes before
    it, after it, and of the third word are not written. *)
Lemma write_header_bytes_out (ret size extra a : Z) (m : gmap Z Z) :
  header_at ret ->
  a < ret \/ ret + 16 <= a < ret + 24 \/ ret + alignment <= a ->
  read_byte (write_header ret size extra m) a = read_byte m a.
Proof.
  unfold header_at, alignment. intros [H0 H1] Ha.
  unfold write_header, alignment, sizeof_size_t.
  rewrite (ptr_add_small ret 8), (ptr_add_small ret 32), (ptr_sub_small (ret + 32) 8)
    by (unfold is_size_t; lia).
  rewrite !read_byte_store_out by lia. reflexivity.
Qed.

(** X1. The header round trip. For a header that does not wrap around the
    address space and fields that are [size_t] values, the three stores of
    [malloc] and [aligned_alloc] are read back exactly by the loads of
    [free] and [realloc]: the size at offset 0, the extra alignment at
    offset 8, the sentinel at offset 24. The word at offset 16 (the unused
    field) is not written. *)
Theorem header_round_trip (ret size extra : Z) (m : gmap Z Z) :
  header_at ret -> is_size_t size -> is_size_t extra ->
  let m' := write_header ret size extra m in
  load_size_t m' ret = size /\
  load_size_t m' (ptr_add ret sizeof_size_t) = extra /\
  load_size_t m' (ptr_sub (ptr_add ret alignment) sizeof_size_t) = sentinel /\
  sentinel_ok ret m' = true /\
  load_size_t m' (ret + 16) = load_size_t m (ret + 16).
Proof.
  intros Hh Hs He m'.
  destruct (header_fields ret size extra m Hh Hs He) as (L1 & L2 & L3).
  fold m' in L1, L2, L3.
  split; [exact L1|]. split; [exact L2|].
  split; [unfold sentinel_ok in L3; now apply Z.eqb_eq in L3|].
  split; [exact L3|].
  unfold load_size_t. unfold m'. cbn [read_bytes].
  rewrite !write_header_bytes_out
    by (try exact Hh; unfold header_at, alignment in *; lia).
  reflexivity.
Qed.

Lemma header_round_trip_example :
  let m' := write_header 0x1000 100 32 ∅ in
  load_size_t m' 0x1000 = 100 /\ load_size_t m' 0x1008 = 32 /\
  load_size_t m' 0x1018 = 0xDEADC0DE /\ load_size_t m' 0x1010 = 0.
Proof.
  intros m'.
  assert (Hh : header_at 0x1000) by (unfold header_at, alignment; lia).
  assert (Hs : is_size_t 100) by (unfold is_size_t; lia).
  assert (He : is_size_t 32) by (unfold is_size_t; lia).
  destruct (header_round_trip 0x1000 100 32 ∅ Hh Hs He) as (L1 & L2 & L3 & _ & L4).
  split; [exact L1|]. split; [exact L2|]. split; [exact L3|exact L4].
Defined.

(** ** What [free] and [malloc] leave alone *)

(** X3. [free] always returns, whatever pointer it is given and whatever
    the state: it never ends the process. It writes no byte of memory and
    changes neither [peak], [total], [num_allocs], the resolved pointers,
    the init heap nor the callback: [curr] and the trace are all it may
    touch. *)
Theorem free_touches_only_curr (p : Z) (st : state) :
  exists st',
    free p st = Ret tt st' /\
    mem st' = mem st /\ peak st' = peak st /\ total st' = total st /\
    num_allocs st' = num_allocs st /\ same_setup st st'.
Proof.
  unfold free.
  destruct (p =? 0);
    [exists st; repeat split; reflexivity|].
  destruct (on_init_heap p st);
    [exists st; repeat split; reflexivity|].
  destruct (negb (real_free st));
    [eexists; split; [reflexivity|]; repeat split|].
  set (hdr := ptr_sub p alignment).
  set (st1 := if sentinel_ok hdr (mem st) then st else _).
  assert (E1 : mem st1 = mem st /\ peak st1 = peak st /\ total st1 = total st /\
               num_allocs st1 = num_allocs st /\ same_setup st st1).
  { unfold st1. destruct (sentinel_ok hdr (mem st)); cbn; repeat split. }
  destruct E1 as (Em & Ep & Et & En & Es).
  eexists. split; [reflexivity|].
  set (size := load_size_t (mem st1) hdr).
  destruct (dec_count_fields size st1) as (_ & Hp & Ht & Hn & _).
  destruct (dec_count_frame size st1) as (Hm & _).
  pose proof (dec_count_same_setup size st1) as Hs.
  cbn [mem peak total num_allocs emit].
  split; [congruence|]. split; [congruence|]. split; [congruence|].
  split; [congruence|].
  exact (same_setup_trans _ _ _ Es Hs).
Qed.

Lemma ptr_add_alignment_ge (x : Z) :
  is_size_t x -> alignment <= ptr_add x alignment ->
  ptr_add x alignment = x + alignment /\ header_at x.
Proof.
  unfold is_size_t, ptr_add, to_size_t, header_at, alignment. intros Hx Hge.
  destruct (Z.lt_ge_cases (x + 32) (2 ^ 64)) as [Hlt|Hwrap].
  - rewrite Z.mod_small in * by lia. lia.
  - exfalso. replace (x + 32) with (x + 32 - 2 ^ 64 + 1 * 2 ^ 64) in Hge by lia.
    rewrite Z.mod_add in Hge by lia. rewrite Z.mod_small in Hge by lia. lia.
Qed.

(** X2. A [malloc] that returns a pointer [p] (at least [alignment], so
    that the header before it did not wrap) has stored nothing but the
    header: every byte below [p - 32], every byte from [p] on (the block of
    the caller and all other blocks) and the unused header word at
    [p - 16 .. p - 9] read as before the call. This holds on the path
    through the real allocator (answering a [size_t] [r]) and on the init
    heap. *)
Theorem malloc_stores_only_the_header (r n p : Z) (st st' : state) :
  is_size_t r -> malloc r n st = Ret p st' -> alignment <= p ->
  forall a,
    a < p - alignment \/ p - 16 <= a < p - 8 \/ p <= a ->
    read_byte (mem st') a = read_byte (mem st) a.
Proof.
  intros Hr E Hp a Ha. unfold malloc in E.
  destruct (n =? 0); [injection E as <- _; unfold alignment in Hp; lia|].
  destruct (real_malloc st).
  - destruct (r =? 0); [discriminate|].
    apply Ret_inv in E. destruct E as [<- <-].
    destruct (ptr_add_alignment_ge r Hr Hp) as [Ep Hh]. rewrite Ep in Ha.
    cbn [mem set_mem].
    rewrite write_header_bytes_out
      by (try exact Hh; unfold alignment in *; lia).
    now destruct (inc_count_frame n
                    (emit (EvRealMalloc (to_size_t (alignment + n)) r) st))
      as (-> & _).
  - destruct (_ <? _); [discriminate|].
    apply Ret_inv in E. destruct E as [<- <-].
    set (ret := ptr_add (init_heap st) (init_heap_use st)) in *.
    assert (Hret : is_size_t ret) by apply to_size_t_range.
    destruct (ptr_add_alignment_ge ret Hret Hp) as [Ep Hh]. rewrite Ep in Ha.
    cbn [mem set_mem set_init_heap_use].
    apply write_header_bytes_out; [exact Hh | unfold alignment in *; lia].
Qed.

Lemma malloc_stores_only_the_header_example :
  let st := set_mem (memset 0x1020 0xAB 100 ∅) (ready_state 0x600000) in
  let st' := state_of (malloc 0x1000 100 st) in
  read_byte (mem st') 0x1020 = 0xAB /\ read_byte (mem st') 0x1083 = 0xAB /\
  read_byte (mem st') 0x1010 = 0.
Proof.
  intros st st'.
  assert (Hr : is_size_t 0x1000) by (unfold is_size_t; lia).
  assert (E : malloc 0x1000 100 st = Ret 0x1020 st') by (vm_compute; reflexivity).
  assert (Hp : alignment <= 0x1020) by (unfold alignment; lia).
  pose proof (malloc_stores_only_the_header 0x1000 100 0x1020 st st' Hr E Hp) as H.
  split; [|split].
  - rewrite (H 0x1020) by lia. vm_compute. reflexivity.
  - rewrite (H 0x1083) by lia. vm_compute. reflexivity.
  - rewrite (H 0x1010) by lia. vm_compute. reflexivity.
Defined.

(** ** Round trips through the real allocator *)

(** X4. [aligned_alloc] followed by [free]. Once the real allocator is
    resolved, take [aligned_alloc(al, size)] with [size > 0], answered by
    the real allocator with a pointer [r] whose header place
    [r + max(0, al - 32)] does not wrap and lies outside the init heap. Then
    [free] of the returned pointer finds the sentinel (no corruption line is
    printed), calls the real [free] with exactly [r], brings
    [malloc_count_current()] back to its value before the allocation,
    and leaves [peak], [total] and [num_allocs] as the allocation set
    them. *)
Theorem aligned_alloc_then_free_round_trip (r al size : Z) (st : state) :
  let extra := Z.max 0 (al - alignment) in
  real_aligned_alloc st = true -> real_free st = true ->
  is_size_t al -> is_size_t size -> size <> 0 -> 0 < r ->
  header_at (r + extra) ->
  on_init_heap (r + extra + alignment) st = false ->
  exists st1 st2,
    aligned_alloc r al size st = Ret (r + extra + alignment) st1 /\
    free (r + extra + alignment) st1 = Ret tt st2 /\
    trace st2 =
      EvRealFree r
      :: callback_event st (to_long_long (curr st1 - size)) ++ trace st1 /\
    malloc_count_current st2 = malloc_count_current st /\
    peak st2 = peak st1 /\ total st2 = total st1 /\
    num_allocs st2 = num_allocs st1.
Proof.
  intros extra Hra Hrf Hal Hsize Hs Hr Hh Harena.
  destruct (aligned_alloc_ready r al size st Hra Hal Hsize Hs)
    as (st1 & E1 & C1 & L1 & L2 & L3 & _ & Hsame); [lia | exact Hh | lia |].
  fold extra in E1, L1, L2, L3.
  assert (Hsub : ptr_sub (r + extra + alignment) alignment = r + extra).
  { unfold ptr_sub. replace (r + extra + alignment - alignment) with (r + extra) by lia.
    apply to_size_t_small. unfold header_at, is_size_t, alignment in *. lia. }
  destruct (free_real (r + extra + alignment) st1) as (st2 & E2 & C2 & _ & T & _).
  { unfold header_at, alignment in *. lia. }
  { now rewrite (on_init_heap_same_setup _ _ _ Hsame). }
  { destruct Hsame as (_ & _ & -> & _). exact Hrf. }
  rewrite Hsub in C2, T.
  rewrite (ptr_add_small (r + extra) sizeof_size_t) in T
    by (unfold header_at, is_size_t, alignment, sizeof_size_t in *; lia).
  rewrite L1 in C2, T. rewrite L2, L3 in T.
  replace (ptr_sub (r + extra) extra) with r in T.
  2:{ unfold ptr_sub. replace (r + extra - extra) with r by lia.
      symmetry. apply to_size_t_small.
      unfold header_at, is_size_t, alignment, extra in *. lia. }
  assert (Ecb : callback_event st1 = callback_event st).
  { unfold callback_event.
    destruct Hsame as (_ & _ & _ & _ & _ & _ & -> & ->). reflexivity. }
  rewrite Ecb in T.
  exists st1, st2. split; [exact E1|]. split; [exact E2|]. split; [exact T|].
  unfold counters, account_free, account_allocate in C1, C2.
  injection C1 as K1 K2 K3 K4. rewrite K1, K2, K3, K4 in C2.
  injection C2 as J1 J2 J3 J4.
  split; [|split; [|split]]; try congruence.
  unfold malloc_count_current. rewrite J1, to_size_t_to_long_long.
  replace (to_long_long (curr st + size) - size)
    with (to_long_long (curr st + size) + - size) by lia.
  rewrite to_size_t_shift. f_equal. lia.
Qed.

(** The scenario of the specification: alignment 4096, size 10. *)
Lemma aligned_alloc_then_free_example :
  exists st1 st2,
    aligned_alloc 0x10000 4096 10 (ready_state 0x600000) = Ret 0x11000 st1 /\
    free 0x11000 st1 = Ret tt st2 /\
    trace st2 = EvRealFree 0x10000 :: trace st1 /\
    malloc_count_current st2 = 0.
Proof.
  assert (H1 : is_size_t 4096) by (unfold is_size_t; lia).
  assert (H2 : is_size_t 10) by (unfold is_size_t; lia).
  assert (H3 : 10 <> 0) by lia.
  assert (H4 : 0 < 0x10000) by lia.
  assert (H5 : header_at (0x10000 + Z.max 0 (4096 - alignment)))
    by (unfold header_at, alignment; lia).
  destruct (aligned_alloc_then_free_round_trip 0x10000 4096 10
              (ready_state 0x600000) eq_refl eq_refl H1 H2 H3 H4 H5 eq_refl)
    as (st1 & st2 & E1 & E2 & T & C & _).
  exists st1, st2. split; [exact E1|]. split; [exact E2|].
  split; [exact T|exact C].
Defined.

(** ** [total] and [num_allocs] along a sequence *)

Lemma account_total_count (base use : Z) (ops : list op) :
  forall (live live' : list (Z * Z)) (c : Z * Z * Z * Z),
    live_after base use live ops = Some live' ->
    is_long_long (total_of c) -> is_long_long (count_of c) ->
    total_of (account live ops c) = to_long_long (total_of c + requested ops) /\
    count_of (account live ops c) = to_long_long (count_of c + allocations ops).
Proof.
  induction ops as [|[r size|p] ops IH]; intros live live' c; cbn.
  - intros _ Ht Hn. rewrite !Z.add_0_r. now rewrite !to_long_long_small.
  - destruct (_ && _); [|discriminate]. intros H Ht Hn.
    destruct c as [[[cur pk] tot] n]. cbn in *.
    destruct (IH _ _ (to_long_long (cur + size),
                      Z.max pk (to_long_long (cur + size)),
                      to_long_long (tot + size), to_long_long (n + 1)) H)
      as [I1 I2]; cbn; try apply to_long_long_range.
    cbn in I1, I2. rewrite I1, I2, !to_long_long_add_l.
    split; f_equal; lia.
  - destruct (lookup_live p live) as [s|] eqn:E; [|discriminate]. intros H Ht Hn.
    destruct c as [[[cur pk] tot] n]. cbn in *.
    apply (IH _ _ (to_long_long (cur - s), pk, tot, n) H); assumption.
Qed.

Lemma requested_nonneg (base use : Z) (ops : list op) :
  forall (live live' : list (Z * Z)),
    live_after base use live ops = Some live' ->
    0 <= requested ops /\ 0 <= allocations ops.
Proof.
  induction ops as [|[r size|p] ops IH]; intros live live'; cbn.
  - lia.
  - destruct (_ && _) eqn:E; [|discriminate]. intros H.
    rewrite !andb_true_iff in E. destruct E as [[Hs _] _].
    apply Z.ltb_lt in Hs. destruct (IH _ _ H). lia.
  - destruct (lookup_live p live); [|discriminate]. apply IH.
Qed.

(** X5. Along any sequence of [malloc] and [free] calls the real allocator
    can produce (as for C1), [total] ends as its start value plus the sum
    of all the sizes requested and [num_allocs] as its start value plus the
    number of [malloc] calls, in the arithmetic of the counters; the [free]
    calls contribute nothing. When these sums fit a [long long], [total] and
    [num_allocs] are the plain sums, and have not decreased. *)
Theorem total_and_count_along_sequence
    (ops : list op) (live' : list (Z * Z)) (st : state) :
  real_malloc st = true -> real_free st = true ->
  is_long_long (total st) -> is_long_long (num_allocs st) ->
  live_after (init_heap st) (init_heap_use st) [] ops = Some live' ->
  exists st',
    run ops st = Ret tt st' /\
    total st' = to_long_long (total st + requested ops) /\
    num_allocs st' = to_long_long (num_allocs st + allocations ops) /\
    (is_long_long (total st + requested ops) ->
     total st' = total st + requested ops /\ total st <= total st') /\
    (is_long_long (num_allocs st + allocations ops) ->
     num_allocs st' = num_allocs st + allocations ops /\
     num_allocs st <= num_allocs st').
Proof.
  intros Hm Hf Ht Hn Hlive.
  destruct (run_accounts ops [] live' st Hm Hf) as (st' & R & _ & C & _);
    [constructor | exact Hlive |].
  destruct (account_total_count _ _ _ _ _ (counters st) Hlive Ht Hn) as [A1 A2].
  destruct (requested_nonneg _ _ _ _ _ Hlive) as [P1 P2].
  rewrite <- C in A1, A2. cbn in A1, A2.
  exists st'. split; [exact R|]. split; [exact A1|]. split; [exact A2|].
  split; intros Hin.
  - rewrite A1, to_long_long_small by exact Hin. lia.
  - rewrite A2, to_long_long_small by exact Hin. lia.
Qed.

Lemma total_and_count_example :
  let ops := [OpMalloc 0x1000 100; OpMalloc 0x2000 50; OpFree 0x1020;
              OpMalloc 0x3000 7] in
  exists st',
    run ops (ready_state 0x600000) = Ret tt st' /\
    total st' = 157 /\ num_allocs st' = 3.
Proof.
  intros ops.
  assert (H0 : is_long_long 0) by (unfold is_long_long; lia).
  destruct (total_and_count_along_sequence ops
              [(0x3020, 7); (0x2020, 50)] (ready_state 0x600000)
              eq_refl eq_refl H0 H0 eq_refl) as (st' & R & T & N & _).
  exists st'. split; [exact R|]. split; [exact T|exact N].
Defined.

(** ** The callback *)

(** X6. After [malloc_count_set_callback(cb, cookie)] with [cb] not null,
    every update of the ledger calls [cb] once, after the update of [curr]
    and with the new [curr]: [malloc] calls it after the real [malloc] has
    answered, [free] calls it before the real [free] is called. A later
    registration replaces the earlier one, and registering the null
    callback silences the ledger: the same calls then add no callback event
    to the trace. *)
Theorem callback_sees_every_update (cb cookie r size : Z) (st : state) :
  let st0 := malloc_count_set_callback cb cookie st in
  real_malloc st = true -> real_free st = true ->
  is_size_t size -> size <> 0 -> r <> 0 -> header_at r ->
  on_init_heap (r + alignment) st = false ->
  (forall cb' cookie',
     malloc_count_set_callback cb cookie
       (malloc_count_set_callback cb' cookie' st) = st0) /\
  exists st1 st2,
    malloc r size st0 = Ret (r + alignment) st1 /\
    free (r + alignment) st1 = Ret tt st2 /\
    (cb <> 0 ->
     trace st1 =
       EvCallback cb cookie (curr st1)
       :: EvRealMalloc (to_size_t (alignment + size)) r :: trace st /\
     trace st2 =
       EvRealFree r :: EvCallback cb cookie (curr st2) :: trace st1) /\
    (cb = 0 ->
     trace st1 = EvRealMalloc (to_size_t (alignment + size)) r :: trace st /\
     trace st2 = EvRealFree r :: trace st1).
Proof.
  intros st0 Hm Hf Hsize Hs Hr Hh Harena.
  split; [reflexivity|].
  destruct (malloc_ready r size st0 Hm Hs Hr) as (st1 & E1 & C1 & M1 & T1 & S1).
  assert (Ep : ptr_add r alignment = r + alignment)
    by (apply ptr_add_small; unfold header_at, is_size_t, alignment in *; lia).
  rewrite Ep in E1.
  assert (Hz : is_size_t 0) by (unfold is_size_t; lia).
  destruct (header_fields r size 0 (mem st0) Hh Hsize Hz) as (L1 & L2 & L3).
  rewrite <- M1 in L1, L2, L3.
  assert (Hsub : ptr_sub (r + alignment) alignment = r).
  { unfold ptr_sub. replace (r + alignment - alignment) with r by lia.
    apply to_size_t_small. unfold header_at, is_size_t, alignment in *. lia. }
  destruct (free_real (r + alignment) st1) as (st2 & E2 & C2 & _ & T2 & _).
  { unfold header_at, alignment in *. lia. }
  { rewrite (on_init_heap_same_setup _ _ _ S1). exact Harena. }
  { destruct S1 as (_ & _ & -> & _). exact Hf. }
  rewrite Hsub, L1, L2, L3 in T2.
  replace (ptr_sub r 0) with r in T2
    by (unfold ptr_sub; rewrite Z.sub_0_r; symmetry; apply to_size_t_small;
        unfold header_at, is_size_t, alignment in *; lia).
  assert (Ecur1 : curr st1 = to_long_long (curr st + size)).
  { unfold counters, account_allocate in C1. now injection C1. }
  assert (Ecur2 : curr st2 = to_long_long (curr st1 - size)).
  { unfold counters, account_free in C2. rewrite Hsub, L1 in C2. now injection C2. }
  assert (Ecb : callback_event st1 = callback_event st0).
  { unfold callback_event.
    destruct S1 as (_ & _ & _ & _ & _ & _ & -> & ->). reflexivity. }
  rewrite Ecb, <- Ecur2 in T2. change (curr st0) with (curr st) in T1.
  rewrite <- Ecur1 in T1. change (trace st0) with (trace st) in T1.
  exists st1, st2. split; [exact E1|]. split; [exact E2|].
  unfold callback_event in T1, T2. cbn [callback callback_cookie st0
    malloc_count_set_callback] in T1, T2.
  split; intros Hcb.
  - apply Z.eqb_neq in Hcb. rewrite Hcb in T1, T2. split; assumption.
  - subst cb. cbn [Z.eqb] in T1, T2. split; assumption.
Qed.

Lemma callback_example :
  let st0 := malloc_count_set_callback 0x4000 7 (ready_state 0x600000) in
  exists st1 st2,
    malloc 0x1000 100 st0 = Ret 0x1020 st1 /\
    free 0x1020 st1 = Ret tt st2 /\
    trace st2 = [EvRealFree 0x1000; EvCallback 0x4000 7 (curr st2);
                 EvCallback 0x4000 7 (curr st1); EvRealMalloc 132 0x1000].
Proof.
  intros st0.
  assert (H1 : is_size_t 100) by (unfold is_size_t; lia).
  assert (H2 : 100 <> 0) by lia.
  assert (H3 : 0x1000 <> 0) by lia.
  assert (H4 : header_at 0x1000) by (unfold header_at, alignment; lia).
  assert (H5 : 0x4000 <> 0) by lia.
  destruct (callback_sees_every_update 0x4000 7 0x1000 100 (ready_state 0x600000)
              eq_refl eq_refl H1 H2 H3 H4 eq_refl)
    as (_ & st1 & st2 & E1 & E2 & T & _).
  destruct (T H5) as [T1 T2].
  exists st1, st2. split; [exact E1|]. split; [exact E2|].
  rewrite T2, T1. reflexivity.
Defined.

(** ** [init] *)

Lemma same_setup_same_resolution (st st' : state) :
  same_setup st st' -> same_resolution st st'.
Proof. unfold same_setup, same_resolution. tauto. Qed.

Lemma same_resolution_refl (st : state) : same_resolution st st.
Proof. unfold same_resolution. tauto. Qed.

Lemma same_resolution_trans (st1 st2 st3 : state) :
  same_resolution st1 st2 -> same_resolution st2 st3 -> same_resolution st1 st3.
Proof. unfold same_resolution. intuition congruence. Qed.

Lemma malloc_same_resolution (r n p : Z) (st st' : state) :
  malloc r n st = Ret p st' -> same_resolution st st'.
Proof.
  intros E. destruct (real_malloc st) eqn:Hm.
  - apply same_setup_same_resolution.
    exact (malloc_resolved_same_setup _ _ _ _ _ Hm E).
  - unfold malloc in E. rewrite Hm in E.
    destruct (n =? 0); [apply Ret_inv in E; destruct E as [_ <-];
                        apply same_resolution_refl|].
    destruct (_ <? _); [discriminate E|].
    apply Ret_inv in E. destruct E as [_ <-].
    unfold same_resolution. cbn. tauto.
Qed.

Lemma realloc_same_resolution (r p n q : Z) (st st' : state) :
  realloc r p n st = Ret q st' -> same_resolution st st'.
Proof.
  unfold realloc.
  destruct (on_init_heap p st).
  - set (hdr := ptr_sub p alignment).
    set (st1 := if sentinel_ok hdr (mem st) then st else _).
    assert (Es : same_resolution st st1).
    { unfold st1. destruct (sentinel_ok hdr (mem st)); unfold same_resolution;
        cbn; tauto. }
    destruct (n <=? load_size_t (mem st1) hdr).
    + intros E. apply Ret_inv in E. destruct E as [_ <-].
      unfold same_resolution in *. cbn. exact Es.
    + destruct (malloc r n st1) as [newptr st2|st2|st2] eqn:Em;
        cbn [bind]; [|discriminate|discriminate].
      apply malloc_same_resolution in Em.
      set (st3 := set_mem _ st2).
      destruct (free (ptr_add hdr alignment) st3) as [u st4|st4|st4] eqn:Ef;
        cbn [bind]; [|discriminate|discriminate].
      intros E. apply Ret_inv in E. destruct E as [_ <-].
      apply free_same_setup, same_setup_same_resolution in Ef.
      apply (same_resolution_trans _ _ _ Es), (same_resolution_trans _ st3);
        [|exact Ef].
      unfold same_resolution in *. cbn. exact Em.
  - destruct (n =? 0).
    + destruct (free p st) as [u st1|st1|st1] eqn:Ef; cbn [bind];
        [|discriminate|discriminate].
      intros E. apply Ret_inv in E. destruct E as [_ <-].
      now apply free_same_setup, same_setup_same_resolution in Ef.
    + destruct (p =? 0); [apply malloc_same_resolution|].
      set (hdr := ptr_sub p alignment).
      set (st1 := if sentinel_ok hdr (mem st) then st else _).
      assert (Es : same_setup st st1).
      { unfold st1. destruct (sentinel_ok hdr (mem st)); cbn;
          repeat split; apply same_setup_refl. }
      set (oldsize := load_size_t (mem st1) hdr).
      set (st2 := set_mem _ st1).
      set (st3 := inc_count n (dec_count oldsize st2)).
      destruct (negb (real_realloc st3)); [discriminate|].
      destruct (r =? 0); [discriminate|].
      intros E. apply Ret_inv in E. destruct E as [_ <-].
      apply same_setup_same_resolution.
      apply same_setup_set_mem, same_setup_set_mem, same_setup_emit.
      apply (same_setup_trans _ st1); [exact Es|].
      apply (same_setup_trans _ st2); [apply same_setup_set_mem, same_setup_refl|].
      apply (same_setup_trans _ (dec_count oldsize st2));
        [apply dec_count_same_setup|].
      apply inc_count_same_setup.
Qed.

Lemma exec_same_resolution (c : entry_call) (st st' : state) :
  exec c st = Ret tt st' -> same_resolution st st'.
Proof.
  destruct c as [r n|r al n|r m al n|r al n|p|r k n|r p n]; cbn [exec].
  - destruct (malloc r n st) as [q s|s|s] eqn:E; cbn [bind]; try discriminate.
    intros H. apply Ret_inv in H. destruct H as [_ <-].
    exact (malloc_same_resolution _ _ _ _ _ E).
  - destruct (aligned_alloc r al n st) as [q s|s|s] eqn:E; cbn [bind];
      try discriminate.
    intros H. apply Ret_inv in H. destruct H as [_ <-].
    exact (same_setup_same_resolution _ _ (aligned_alloc_same_setup _ _ _ _ _ _ E)).
  - unfold posix_memalign.
    destruct (aligned_alloc r al n st) as [q s|s|s] eqn:E; cbn [bind];
      try discriminate.
    destruct (m =? 0); cbn [bind]; [discriminate|].
    intros H. apply Ret_inv in H. destruct H as [_ <-].
    apply same_setup_same_resolution, same_setup_set_mem.
    exact (aligned_alloc_same_setup _ _ _ _ _ _ E).
  - unfold memalign.
    destruct (aligned_alloc r al n st) as [q s|s|s] eqn:E; cbn [bind];
      try discriminate.
    intros H. apply Ret_inv in H. destruct H as [_ <-].
    exact (same_setup_same_resolution _ _ (aligned_alloc_same_setup _ _ _ _ _ _ E)).
  - intros E. now apply free_same_setup, same_setup_same_resolution in E.
  - unfold calloc. destruct (_ =? 0); cbn [bind].
    + intros H. apply Ret_inv in H. destruct H as [_ <-].
      apply same_resolution_refl.
    + destruct (malloc r (to_size_t (n * k)) st) as [q s|s|s] eqn:E;
        cbn [bind]; try discriminate.
      intros H. apply Ret_inv in H. destruct H as [_ <-].
      apply malloc_same_resolution in E.
      unfold same_resolution in *. cbn. exact E.
  - destruct (realloc r p n st) as [q s|s|s] eqn:E; cbn [bind]; try discriminate.
    intros H. apply Ret_inv in H. destruct H as [_ <-].
    exact (realloc_same_resolution _ _ _ _ _ _ E).
Qed.

Lemma exec_all_same_resolution (cs : list entry_call) :
  forall st st', exec_all cs st = Ret tt st' -> same_resolution st st'.
Proof.
  induction cs as [|c cs IH]; intros st st'; cbn [exec_all].
  - intros H. apply Ret_inv in H. destruct H as [_ <-]. apply same_resolution_refl.
  - destruct (exec c st) as [[] s|s|s] eqn:E; cbn [bind]; try discriminate.
    intros H. apply (same_resolution_trans _ s).
    + exact (exec_same_resolution _ _ _ E).
    + exact (IH _ _ H).
Qed.

(** Every way out through [exit] has run the destructor. *)
Lemma malloc_exit_finished (r n : Z) (st st' : state) :
  malloc r n st = Exit st' -> exists s, st' = finish s.
Proof.
  unfold malloc. destruct (n =? 0); [discriminate|].
  destruct (real_malloc st).
  - destruct (r =? 0); discriminate.
  - destruct (_ <? _); [|discriminate].
    intros [= <-]. eexists. reflexivity.
Qed.

Lemma aligned_alloc_exit_finished (r al n : Z) (st st' : state) :
  aligned_alloc r al n st = Exit st' -> exists s, st' = finish s.
Proof.
  unfold aligned_alloc. destruct (n =? 0); [discriminate|].
  destruct (negb _).
  - intros [= <-]. eexists. reflexivity.
  - destruct (r =? 0); discriminate.
Qed.

Lemma free_never_exits (p : Z) (st st' : state) : free p st <> Exit st'.
Proof.
  unfold free. destruct (p =? 0); [discriminate|].
  destruct (on_init_heap p st); [discriminate|].
  destruct (negb _); discriminate.
Qed.

Lemma realloc_exit_finished (r p n : Z) (st st' : state) :
  realloc r p n st = Exit st' -> exists s, st' = finish s.
Proof.
  unfold realloc. destruct (on_init_heap p st).
  - cbv zeta. destruct (n <=? _); [discriminate|].
    match goal with |- context [malloc r n ?s] =>
      destruct (malloc r n s) as [q s2|s2|s2] eqn:Em end; cbn [bind].
    + match goal with |- context [free ?a ?s] =>
        destruct (free a s) as [u s4|s4|s4] eqn:Ef end; cbn [bind];
        [discriminate| |discriminate].
      now apply free_never_exits in Ef.
    + intros [= <-]. exact (malloc_exit_finished _ _ _ _ Em).
    + discriminate.
  - destruct (n =? 0).
    + destruct (free p st) as [u s1|s1|s1] eqn:Ef; cbn [bind];
        [discriminate| |discriminate].
      now apply free_never_exits in Ef.
    + destruct (p =? 0); [apply malloc_exit_finished|].
      cbv zeta. destruct (negb _); [discriminate|].
      destruct (r =? 0); discriminate.
Qed.

Lemma exec_exit_finished (c : entry_call) (st st' : state) :
  exec c st = Exit st' -> exists s, st' = finish s.
Proof.
  destruct c as [r n|r al n|r m al n|r al n|p|r k n|r p n]; cbn [exec].
  - destruct (malloc r n st) as [q s|s|s] eqn:E; cbn [bind]; try discriminate.
    intros [= <-]. exact (malloc_exit_finished _ _ _ _ E).
  - destruct (aligned_alloc r al n st) as [q s|s|s] eqn:E; cbn [bind];
      try discriminate.
    intros [= <-]. exact (aligned_alloc_exit_finished _ _ _ _ _ E).
  - unfold posix_memalign.
    destruct (aligned_alloc r al n st) as [q s|s|s] eqn:E; cbn [bind];
      try discriminate.
    + destruct (m =? 0); discriminate.
    + intros [= <-]. exact (aligned_alloc_exit_finished _ _ _ _ _ E).
  - unfold memalign.
    destruct (aligned_alloc r al n st) as [q s|s|s] eqn:E; cbn [bind];
      try discriminate.
    intros [= <-]. exact (aligned_alloc_exit_finished _ _ _ _ _ E).
  - intros E. now apply free_never_exits in E.
  - unfold calloc. destruct (_ =? 0); cbn [bind]; [discriminate|].
    destruct (malloc r (to_size_t (n * k)) st) as [q s|s|s] eqn:E;
      cbn [bind]; try discriminate.
    intros [= <-]. exact (malloc_exit_finished _ _ _ _ E).
  - destruct (realloc r p n st) as [q s|s|s] eqn:E; cbn [bind]; try discriminate.
    intros [= <-]. exact (realloc_exit_finished _ _ _ _ _ E).
Qed.

Lemma exec_all_exit_finished (cs : list entry_call) :
  forall st st', exec_all cs st = Exit st' -> exists s, st' = finish s.
Proof.
  induction cs as [|c cs IH]; intros st st'; cbn [exec_all]; [discriminate|].
  destruct (exec c st) as [[] s|s|s] eqn:E; cbn [bind]; try discriminate.
  - apply IH.
  - intros [= <-]. exact (exec_exit_finished _ _ _ E).
Qed.

(** One lookup of [init]. *)
Lemma resolve_returns (l : symbol_lookup) (f : real_fn) (st st' : state) :
  resolve l (assign_real f) st = Ret tt st' ->
  dlerror_error l = false /\
  exists s1, same_resolution st s1 /\
             same_resolution (assign_real f (dlsym_found l) s1) st'.
Proof.
  unfold resolve.
  destruct (exec_all (dlsym_calls l) st) as [[] s1|s1|s1] eqn:E1; cbn [bind];
    try discriminate.
  destruct (exec_all (dlerror_calls l) _) as [[] s3|s3|s3] eqn:E3; cbn [bind];
    try discriminate.
  destruct (dlerror_error l); [discriminate|].
  intros H. apply Ret_inv in H. destruct H as [_ <-].
  split; [reflexivity|]. exists s1. split.
  - exact (exec_all_same_resolution _ _ _ E1).
  - exact (exec_all_same_resolution _ _ _ E3).
Qed.

Lemma resolve_exit_finished (l : symbol_lookup) (assign : bool -> state -> state)
    (st st' : state) :
  resolve l assign st = Exit st' -> exists s, st' = finish s.
Proof.
  unfold resolve.
  destruct (exec_all (dlsym_calls l) st) as [[] s1|s1|s1] eqn:E1; cbn [bind];
    try discriminate.
  - destruct (exec_all (dlerror_calls l) _) as [[] s3|s3|s3] eqn:E3; cbn [bind];
      try discriminate.
    + destruct (dlerror_error l); [|discriminate].
      intros [= <-]. eexists. reflexivity.
    + intros [= <-]. exact (exec_all_exit_finished _ _ _ E3).
  - intros [= <-]. exact (exec_all_exit_finished _ _ _ E1).
Qed.

(** X7. [init] resolves all four real functions or does not return. If
    [init] returns, none of the four lookups reported an error, each of the
    four pointers holds what its [dlsym] lookup found, and the calls that
    [setlocale], [dlsym] and [dlerror] made into the allocator while [init]
    was running have not changed the callback nor the place of the init
    heap. If [init] ends the process (a lookup reported an error, or one of
    those calls ended it, as [aligned_alloc] does before it is resolved),
    the last line printed is the summary of the destructor. *)
Theorem init_resolves_all_or_exits (locale_calls : list entry_call)
    (l1 l2 l3 l4 : symbol_lookup) (st : state) :
  (forall st',
     init locale_calls l1 l2 l3 l4 st = Ret tt st' ->
     (dlerror_error l1 = false /\ dlerror_error l2 = false /\
      dlerror_error l3 = false /\ dlerror_error l4 = false) /\
     real_malloc st' = dlsym_found l1 /\
     real_aligned_alloc st' = dlsym_found l2 /\
     real_realloc st' = dlsym_found l3 /\
     real_free st' = dlsym_found l4 /\
     init_heap st' = init_heap st /\
     callback st' = callback st /\ callback_cookie st' = callback_cookie st) /\
  (forall st',
     init locale_calls l1 l2 l3 l4 st = Exit st' ->
     exists s,
       st' = finish s /\
       trace st' = DiagExiting (total s) (peak s) (curr s) :: trace s).
Proof.
  split; intros st'; unfold init.
  - destruct (exec_all locale_calls st) as [[] s0|s0|s0] eqn:E0; cbn [bind];
      try discriminate.
    destruct (resolve l1 set_real_malloc s0) as [[] s1|s1|s1] eqn:E1;
      cbn [bind]; try discriminate.
    destruct (resolve l2 set_real_aligned_alloc s1) as [[] s2|s2|s2] eqn:E2;
      cbn [bind]; try discriminate.
    destruct (resolve l3 set_real_realloc s2) as [[] s3|s3|s3] eqn:E3;
      cbn [bind]; try discriminate.
    intros E4.
    apply exec_all_same_resolution in E0.
    apply (resolve_returns l1 RealMalloc) in E1.
    apply (resolve_returns l2 RealAlignedAlloc) in E2.
    apply (resolve_returns l3 RealRealloc) in E3.
    apply (resolve_returns l4 RealFree) in E4.
    destruct E1 as (N1 & a1 & A1 & B1). destruct E2 as (N2 & a2 & A2 & B2).
    destruct E3 as (N3 & a3 & A3 & B3). destruct E4 as (N4 & a4 & A4 & B4).
    unfold same_resolution in *. cbn in B1, B2, B3, B4.
    split; [tauto|]. intuition congruence.
  - assert (F : forall s, st' = finish s ->
                exists s0, st' = finish s0 /\
                  trace st' = DiagExiting (total s0) (peak s0) (curr s0) :: trace s0).
    { intros s ->. exists s. split; reflexivity. }
    destruct (exec_all locale_calls st) as [[] s0|s0|s0] eqn:E0; cbn [bind];
      try discriminate.
    2:{ intros [= <-]. destruct (exec_all_exit_finished _ _ _ E0) as [s Hs].
        exact (F s Hs). }
    destruct (resolve l1 set_real_malloc s0) as [[] s1|s1|s1] eqn:E1;
      cbn [bind]; try discriminate.
    2:{ intros [= <-]. destruct (resolve_exit_finished _ _ _ _ E1) as [s Hs].
        exact (F s Hs). }
    destruct (resolve l2 set_real_aligned_alloc s1) as [[] s2|s2|s2] eqn:E2;
      cbn [bind]; try discriminate.
    2:{ intros [= <-]. destruct (resolve_exit_finished _ _ _ _ E2) as [s Hs].
        exact (F s Hs). }
    destruct (resolve l3 set_real_realloc s2) as [[] s3|s3|s3] eqn:E3;
      cbn [bind]; try discriminate.
    2:{ intros [= <-]. destruct (resolve_exit_finished _ _ _ _ E3) as [s Hs].
        exact (F s Hs). }
    intros E4. destruct (resolve_exit_finished _ _ _ _ E4) as [s Hs].
    exact (F s Hs).
Qed.

Lemma init_example :
  (real_malloc early_st2 = true /\ real_aligned_alloc early_st2 = true /\
   real_realloc early_st2 = true /\ real_free early_st2 = true) /\
  init [] found_quietly not_found found_quietly found_quietly (start 0x600000)
    = Exit failed_init_st /\
  trace failed_init_st = [DiagExiting 0 0 0; DiagDlsymError].
Proof.
  assert (E2 : init [CallMalloc 0 1780] found_quietly found_quietly
                 found_quietly found_quietly early_st1 = Ret tt early_st2)
    by (vm_compute; reflexivity).
  assert (E3 : init [] found_quietly not_found found_quietly found_quietly
                 (start 0x600000) = Exit failed_init_st)
    by (vm_compute; reflexivity).
  destruct (init_resolves_all_or_exits [CallMalloc 0 1780] found_quietly
              found_quietly found_quietly found_quietly early_st1) as [A _].
  destruct (init_resolves_all_or_exits [] found_quietly not_found
              found_quietly found_quietly (start 0x600000)) as [_ B].
  destruct (A early_st2 E2) as (_ & R1 & R2 & R3 & R4 & _).
  destruct (B failed_init_st E3) as (s & _ & _).
  split; [repeat split; assumption|]. split; [exact E3|].
  vm_compute. reflexivity.
Defined.

(** ** The init heap *)


(** X8. Blocks of the init heap are consecutive and stay inside the array.
    Before [real_malloc] is resolved, let two requests in a row fit in what
    is left of the array. The first block is carved at
    [init_heap + init_heap_use], the second starts exactly where the data
    of the first ends, and what the second occupies ends at
    [init_heap + init_heap_use], within the [INIT_HEAP_SIZE] bytes of the
    array. Carving the second block leaves the first intact: its header
    still holds its size and the sentinel, and its data bytes are as they
    were before both calls. *)
Theorem init_heap_blocks_are_consecutive (r1 r2 n1 n2 : Z) (st : state) :
  let p1 := init_heap st + init_heap_use st + alignment in
  let p2 := p1 + n1 + alignment in
  real_malloc st = false -> 0 < n1 -> 0 < n2 -> 0 <= init_heap_use st ->
  init_heap_use st + (alignment + n1) + (alignment + n2) <= INIT_HEAP_SIZE ->
  0 < init_heap st -> init_heap st + INIT_HEAP_SIZE < 2 ^ 64 ->
  exists st1 st2,
    malloc r1 n1 st = Ret p1 st1 /\
    malloc r2 n2 st1 = Ret p2 st2 /\
    p2 + n2 = init_heap st2 + init_heap_use st2 /\
    init_heap st2 = init_heap st /\ init_heap_use st2 <= INIT_HEAP_SIZE /\
    load_size_t (mem st2) (p1 - alignment) = n1 /\
    sentinel_ok (p1 - alignment) (mem st2) = true /\
    load_size_t (mem st2) (p2 - alignment) = n2 /\
    (forall a, p1 <= a < p1 + n1 ->
       read_byte (mem st2) a = read_byte (mem st) a).
Proof.
  intros p1 p2 Hnr H1 H2 Hu Hfit Hb Hend.
  destruct (malloc_on_init_heap r1 n1 st Hnr H1 Hu) as (Hh1 & st1 & E1 & M1 & B1 & U1 & F1 & _);
    [unfold alignment in *; lia | exact Hb | exact Hend |].
  destruct (malloc_on_init_heap r2 n2 st1 F1 H2) as (Hh2 & st2 & E2 & M2 & B2 & U2 & _);
    [rewrite U1; unfold alignment; lia | rewrite U1; unfold alignment in *; lia
     | now rewrite B1 | now rewrite B1 |].
  rewrite B1, U1 in E2, M2, Hh2.
  set (ret1 := init_heap st + init_heap_use st) in *.
  set (ret2 := init_heap st + (init_heap_use st + alignment + n1)) in *.
  assert (Ep2 : ret2 + alignment = p2) by (unfold ret2, p2, p1; lia).
  assert (Ep1 : p1 - alignment = ret1) by (unfold p1, ret1; lia).
  assert (Er2 : p2 - alignment = ret2) by lia.
  rewrite Ep2 in E2. exists st1, st2.
  split; [exact E1|]. split; [exact E2|].
  rewrite B2, U2, B1, U1.
  split; [unfold p2, p1; lia|]. split; [reflexivity|].
  split; [unfold alignment in *; lia|].
  assert (Hn1 : is_size_t n1)
    by (unfold is_size_t, INIT_HEAP_SIZE, alignment in *; lia).
  assert (Hn2 : is_size_t n2)
    by (unfold is_size_t, INIT_HEAP_SIZE, alignment in *; lia).
  assert (Hz : is_size_t 0) by (unfold is_size_t; lia).
  destruct (header_fields ret1 n1 0 (mem st) Hh1 Hn1 Hz) as (L1 & _ & L3).
  destruct (header_fields ret2 n2 0 (mem st1) Hh2 Hn2 Hz) as (K1 & _ & _).
  rewrite Ep1, Er2, M2.
  split; [|split; [|split]].
  - rewrite write_header_other
      by (try exact Hh2; unfold ret1, ret2, alignment in *; lia).
    now rewrite M1.
  - unfold sentinel_ok.
    rewrite (ptr_add_small ret1 alignment), (ptr_sub_small (ret1 + alignment))
      by (unfold header_at, is_size_t, alignment, sizeof_size_t in *; lia).
    rewrite write_header_other
      by (try exact Hh2;
          unfold ret1, ret2, alignment, sizeof_size_t in *; lia).
    rewrite M1. unfold sentinel_ok in L3.
    rewrite (ptr_add_small ret1 alignment), (ptr_sub_small (ret1 + alignment)) in L3
      by (unfold header_at, is_size_t, alignment, sizeof_size_t in *; lia).
    exact L3.
  - exact K1.
  - intros a Ha.
    rewrite write_header_bytes_out
      by (try exact Hh2; unfold p1, ret2, alignment in *; lia).
    rewrite M1.
    apply write_header_bytes_out;
      [exact Hh1 | unfold p1, ret1, alignment in *; lia].
Qed.

Lemma init_heap_blocks_example :
  exists st1 st2,
    malloc 0 16 (start 0x600000) = Ret 0x600020 st1 /\
    malloc 0 100 st1 = Ret 0x600050 st2 /\
    0x600050 + 100 = init_heap st2 + init_heap_use st2 /\
    load_size_t (mem st2) 0x600000 = 16.
Proof.
  assert (H1 : 0 < 16) by lia. assert (H2 : 0 < 100) by lia.
  assert (H3 : 0 <= init_heap_use (start 0x600000)) by (vm_compute; discriminate).
  assert (H4 : init_heap_use (start 0x600000) + (alignment + 16) + (alignment + 100)
               <= INIT_HEAP_SIZE) by (vm_compute; discriminate).
  assert (H5 : 0 < init_heap (start 0x600000)) by (vm_compute; reflexivity).
  assert (H6 : init_heap (start 0x600000) + INIT_HEAP_SIZE < 2 ^ 64)
    by (vm_compute; reflexivity).
  destruct (init_heap_blocks_are_consecutive 0 0 16 100 (start 0x600000)
              eq_refl H1 H2 H3 H4 H5 H6)
    as (st1 & st2 & E1 & E2 & P & _ & _ & L & _).
  exists st1, st2. split; [exact E1|]. split; [exact E2|].
  split; [exact P|exact L].
Defined.

(** ** [realloc] of a block of the init heap *)

Lemma read_bytes_lookup (n : nat) (a : Z) (m : gmap Z Z) (j : nat) :
  (j < n)%nat -> read_bytes n a m !! j = Some (read_byte m (a + Z.of_nat j)).
Proof.
  revert a j. induction n as [|n IH]; intros a j Hj; [lia|].
  destruct j as [|j]; cbn [read_bytes].
  - cbn. now rewrite Z.add_0_r.
  - cbn [lookup list_lookup]. rewrite IH by lia. do 2 f_equal. lia.
Qed.

Lemma read_byte_idem (m : gmap Z Z) (a : Z) : read_byte m a mod 256 = read_byte m a.
Proof. unfold read_byte. apply Z.mod_mod. lia. Qed.

Lemma read_byte_memcpy_in (dst src n i : Z) (m : gmap Z Z) :
  0 <= i < n -> read_byte (memcpy dst src n m) (dst + i) = read_byte m (src + i).
Proof.
  intros Hi. unfold memcpy.
  replace i with (Z.of_nat (Z.to_nat i)) at 1 by lia.
  rewrite (read_byte_write_bytes_in _ (Z.to_nat i) (read_byte m (src + i))).
  - apply read_byte_idem.
  - rewrite read_bytes_lookup by lia. do 2 f_equal. lia.
Qed.

Lemma load_memcpy_out (dst src n x : Z) (m : gmap Z Z) :
  0 <= n -> x + 8 <= dst \/ dst + n <= x ->
  load_size_t (memcpy dst src n m) x = load_size_t m x.
Proof.
  intros Hn Hx. unfold load_size_t, memcpy.
  rewrite read_bytes_write_bytes_out; [reflexivity|].
  rewrite length_read_bytes. lia.
Qed.

(** X9. [realloc] shrinks a block of the init heap in place. For a pointer
    [p] in the range of the init heap and a new size [n] that is at most the
    size recorded in its header, [realloc(p, n)] returns [p] itself, in any
    state, resolved or not: it overwrites the recorded size by [n] and
    stores nothing else (the data, the sentinel and every other block are
    as before), calls no allocator and changes no counter. The bytes given
    up are not returned to the init heap: [init_heap_use] is unchanged. *)
Theorem realloc_shrinks_init_heap_block_in_place (r p n : Z) (st : state) :
  on_init_heap p st = true -> is_size_t p -> alignment <= p ->
  is_size_t n -> n <= load_size_t (mem st) (p - alignment) ->
  exists st',
    realloc r p n st = Ret p st' /\
    load_size_t (mem st') (p - alignment) = n /\
    (forall a, a < p - alignment \/ p - alignment + 8 <= a ->
       read_byte (mem st') a = read_byte (mem st) a) /\
    counters st' = counters st /\ same_setup st st' /\
    (sentinel_ok (p - alignment) (mem st) = true -> trace st' = trace st).
Proof.
  intros Harena Hp Hge Hn Hle.
  assert (Hsub : ptr_sub p alignment = p - alignment)
    by (apply ptr_sub_small; unfold is_size_t, alignment in *; lia).
  unfold realloc. rewrite Harena. cbv zeta. rewrite Hsub.
  set (hdr := p - alignment) in *.
  set (st1 := if sentinel_ok hdr (mem st) then st
              else emit (DiagReallocNoSentinel hdr) st).
  assert (E1 : mem st1 = mem st /\ counters st1 = counters st /\
               same_setup st st1 /\
               (sentinel_ok hdr (mem st) = true -> trace st1 = trace st)).
  { unfold st1. destruct (sentinel_ok hdr (mem st)); cbn;
      repeat split; try apply same_setup_refl. discriminate. }
  destruct E1 as (Em & Ec & Es & Et).
  exists (set_mem (store_size_t (mem st) hdr n) st1).
  split.
  { rewrite Em. apply Z.leb_le in Hle. rewrite Hle.
    replace (ptr_add hdr alignment) with p
      by (rewrite <- Hsub; symmetry; now apply ptr_sub_add_back).
    reflexivity. }
  cbn [mem set_mem].
  split; [now apply load_store_eq|]. split; [|split; [exact Ec|split]].
  - intros a Ha. now rewrite read_byte_store_out by lia.
  - exact Es.
  - exact Et.
Qed.

Lemma realloc_shrink_example :
  let st := state_of (malloc 0 100 (start 0x600000)) in
  exists st',
    realloc 0 0x600020 40 st = Ret 0x600020 st' /\
    load_size_t (mem st') 0x600000 = 40 /\
    init_heap_use st' = 132.
Proof.
  intros st.
  assert (H1 : on_init_heap 0x600020 st = true) by (vm_compute; reflexivity).
  assert (H2 : is_size_t 0x600020) by (unfold is_size_t; lia).
  assert (H3 : alignment <= 0x600020) by (unfold alignment; lia).
  assert (H4 : is_size_t 40) by (unfold is_size_t; lia).
  assert (H5 : 40 <= load_size_t (mem st) (0x600020 - alignment))
    by (vm_compute; discriminate).
  destruct (realloc_shrinks_init_heap_block_in_place 0 0x600020 40 st
              H1 H2 H3 H4 H5) as (st' & E & L & _ & _ & S & _).
  exists st'. split; [exact E|]. split; [exact L|].
  destruct S as (_ & _ & _ & _ & _ & -> & _). vm_compute. reflexivity.
Defined.

(** X10. [realloc] moves a block of the init heap that has to grow. Once
    [real_malloc] is resolved, let [p] be a pointer in the range of the init
    heap whose header records the size [old], and [n > old]. When the real
    allocator answers [malloc] with a block at [r] whose header is apart
    from the old data, [realloc(p, n)] returns [r + 32]: the new block has a
    full header (size [n], the sentinel), it is accounted like a
    [malloc(n)], its first [old] bytes are the bytes of the old block, and
    the old block is not reclaimed ([free] on the init heap is a no-op, so
    [init_heap_use] is unchanged). *)
Theorem realloc_moves_init_heap_block (r p n : Z) (st : state) :
  let old := load_size_t (mem st) (p - alignment) in
  real_malloc st = true -> on_init_heap p st = true ->
  is_size_t p -> alignment <= p -> old < n -> is_size_t n ->
  r <> 0 -> header_at r -> r + alignment <= p \/ p + old <= r ->
  exists st',
    realloc r p n st = Ret (r + alignment) st' /\
    counters st' = account_allocate n (counters st) /\
    load_size_t (mem st') r = n /\ sentinel_ok r (mem st') = true /\
    (forall i, 0 <= i < old ->
       read_byte (mem st') (r + alignment + i) = read_byte (mem st) (p + i)) /\
    same_setup st st'.
Proof.
  intros old Hm Harena Hp Hge Hgrow Hn Hr Hh Hapart.
  pose proof (load_size_t_range (mem st) (p - alignment)) as Hold.
  fold old in Hold.
  assert (Hsub : ptr_sub p alignment = p - alignment)
    by (apply ptr_sub_small; unfold is_size_t, alignment in *; lia).
  set (hdr := p - alignment) in *.
  set (st1 := if sentinel_ok hdr (mem st) then st
              else emit (DiagReallocNoSentinel hdr) st).
  assert (E1 : mem st1 = mem st /\ counters st1 = counters st /\
               same_setup st st1).
  { unfold st1. destruct (sentinel_ok hdr (mem st)); cbn;
      repeat split; try apply same_setup_refl. }
  destruct E1 as (Em & Ec & Es).
  assert (Hm1 : real_malloc st1 = true)
    by (destruct Es as (-> & _); exact Hm).
  destruct (malloc_ready r n st1 Hm1) as (st2 & E2 & C2 & M2 & _ & S2);
    [unfold is_size_t in Hold; lia | exact Hr |].
  assert (Ep : ptr_add r alignment = r + alignment)
    by (apply ptr_add_small; unfold header_at, is_size_t, alignment in *; lia).
  rewrite Ep in E2.
  set (st3 := set_mem (memcpy (r + alignment) p old (mem st2)) st2).
  assert (S3 : same_setup st st3).
  { apply (same_setup_trans _ _ _ Es). exact S2. }
  assert (Hon : on_init_heap p st3 = true)
    by (rewrite (on_init_heap_same_setup _ _ _ S3); exact Harena).
  exists st3. split.
  { unfold realloc. rewrite Harena. cbv zeta. rewrite Hsub. fold st1.
    rewrite Em. fold old.
    destruct (Z.leb_spec n old) as [Hbad|_]; [lia|].
    replace (ptr_add hdr alignment) with p
      by (rewrite <- Hsub; symmetry; now apply ptr_sub_add_back).
    rewrite E2. cbn [bind]. fold st3.
    rewrite (free_on_init_heap p st3 Hon). reflexivity. }
  assert (Hz : is_size_t 0) by (unfold is_size_t; lia).
  destruct (header_fields r n 0 (mem st1) Hh Hn Hz) as (L1 & _ & L3).
  rewrite <- M2 in L1, L3.
  split; [cbn [st3]; change (counters st3) with (counters st2); congruence|].
  cbn [mem st3 set_mem].
  split; [|split; [|split]].
  - rewrite load_memcpy_out
      by (unfold is_size_t, header_at, alignment in *; lia).
    exact L1.
  - unfold sentinel_ok in *.
    rewrite load_memcpy_out; [exact L3 | unfold is_size_t in Hold; lia |].
    rewrite Ep. unfold ptr_sub, sizeof_size_t.
    rewrite to_size_t_small
      by (unfold header_at, is_size_t, alignment in *; lia).
    lia.
  - intros i Hi. rewrite read_byte_memcpy_in by exact Hi.
    rewrite M2, Em.
    apply write_header_bytes_out;
      [exact Hh | unfold alignment in *; lia].
  - exact S3.
Qed.

Lemma realloc_moves_init_heap_block_example :
  let st0 := state_of (malloc 0 4 (start 0x600000)) in
  let st1 := set_mem (memset 0x600020 0x5A 4 (mem st0)) st0 in
  let st := state_of (init [] found_quietly found_quietly found_quietly found_quietly st1) in
  exists st',
    realloc 0x1000 0x600020 64 st = Ret 0x1020 st' /\
    counters st' = (64, 64, 64, 1) /\
    read_byte (mem st') 0x1020 = 0x5A /\ read_byte (mem st') 0x1023 = 0x5A /\
    init_heap_use st' = 36.
Proof.
  intros st0 st1 st.
  assert (H1 : on_init_heap 0x600020 st = true) by (vm_compute; reflexivity).
  assert (H2 : is_size_t 0x600020) by (unfold is_size_t; lia).
  assert (H3 : alignment <= 0x600020) by (unfold alignment; lia).
  assert (H4 : load_size_t (mem st) (0x600020 - alignment) < 64)
    by (vm_compute; reflexivity).
  assert (H5 : is_size_t 64) by (unfold is_size_t; lia).
  assert (H6 : 0x1000 <> 0) by lia.
  assert (H7 : header_at 0x1000) by (unfold header_at, alignment; lia).
  assert (H8 : 0x1000 + alignment <= 0x600020 \/
               0x600020 + load_size_t (mem st) (0x600020 - alignment) <= 0x1000)
    by (left; unfold alignment; lia).
  destruct (realloc_moves_init_heap_block 0x1000 0x600020 64 st
              eq_refl H1 H2 H3 H4 H5 H6 H7 H8) as (st' & E & C & _ & _ & D & S).
  exists st'. split; [exact E|]. split; [rewrite C; vm_compute; reflexivity|].
  split; [|split].
  - refine (eq_trans (D 0 _) _);
      [vm_compute; split; [discriminate|reflexivity] | vm_compute; reflexivity].
  - refine (eq_trans (D 3 _) _);
      [vm_compute; split; [discriminate|reflexivity] | vm_compute; reflexivity].
  - destruct S as (_ & _ & _ & _ & _ & -> & _). vm_compute. reflexivity.
Defined.

(** ** [realloc] through the real allocator, then [free] *)

(** The size word [realloc] stores at the place the real [realloc]
    answered. *)
Lemma realloc_real_size_word (r p size : Z) (st : state) :
  p <> 0 -> size <> 0 -> is_size_t size -> on_init_heap p st = false ->
  real_realloc st = true -> r <> 0 ->
  exists st',
    realloc r p size st = Ret (ptr_add (ptr_add r alignment) 0) st' /\
    load_size_t (mem st') r = size.
Proof.
  intros Hp Hs Hsz Harena Hready Hr.
  destruct (realloc_real r p size st Hp Hs Harena Hready Hr) as (st' & E & _).
  exists st'. split; [exact E|].
  apply Z.eqb_neq in Hp, Hs, Hr.
  unfold realloc in E. rewrite Harena, Hs, Hp in E. cbv zeta in E.
  destruct (negb _) in E; [discriminate E|].
  rewrite Hr in E. apply Ret_inv in E. destruct E as [_ <-].
  cbn [mem set_mem]. now apply load_store_eq.
Qed.

(** X11. [realloc] through the real allocator is accounted as a [free] of
    the old size followed by a [malloc] of the new one. For a pointer [p]
    outside the init heap whose header records the size [old], and
    [n > 0], when the real [realloc] answers [r] (not null, header not
    wrapping, outside the init heap): [realloc(p, n)] returns [r + 32];
    [curr] has moved by [n - old], while [total] has grown by the whole of
    [n] and [num_allocs] by 1, also when the block shrinks, and [peak] is
    the larger of [peak] and the new [curr]. The header at [r] records [n]:
    a [free] of the returned pointer takes exactly [n] from [curr]. *)
Theorem realloc_is_accounted_as_free_then_malloc (r p n : Z) (st : state) :
  let old := load_size_t (mem st) (ptr_sub p alignment) in
  p <> 0 -> n <> 0 -> is_size_t n -> on_init_heap p st = false ->
  real_realloc st = true -> real_free st = true ->
  r <> 0 -> header_at r -> on_init_heap (r + alignment) st = false ->
  exists st1 st2,
    realloc r p n st = Ret (r + alignment) st1 /\
    curr st1 = to_long_long (curr st - old + n) /\
    total st1 = to_long_long (total st + n) /\
    num_allocs st1 = to_long_long (num_allocs st + 1) /\
    peak st1 = Z.max (peak st) (curr st1) /\
    load_size_t (mem st1) r = n /\
    free (r + alignment) st1 = Ret tt st2 /\
    curr st2 = to_long_long (curr st1 - n).
Proof.
  intros old Hp Hs Hsz Harena Hrr Hrf Hr Hh Hnew.
  destruct (realloc_real r p n st Hp Hs Harena Hrr Hr) as (st1 & E & C & _ & S).
  destruct (realloc_real_size_word r p n st Hp Hs Hsz Harena Hrr Hr)
    as (st1' & E' & L).
  rewrite E in E'. apply Ret_inv in E'. destruct E' as [_ <-].
  assert (Eq : ptr_add (ptr_add r alignment) 0 = r + alignment).
  { unfold ptr_add.
    rewrite (to_size_t_small (r + alignment))
      by (unfold header_at, is_size_t, alignment in *; lia).
    rewrite Z.add_0_r. apply to_size_t_small.
    unfold header_at, is_size_t, alignment in *. lia. }
  rewrite Eq in E.
  assert (Hsub : ptr_sub (r + alignment) alignment = r).
  { unfold ptr_sub. replace (r + alignment - alignment) with r by lia.
    apply to_size_t_small. unfold header_at, is_size_t, alignment in *. lia. }
  destruct (free_real (r + alignment) st1) as (st2 & E2 & C2 & _).
  { unfold header_at, alignment in *. lia. }
  { rewrite (on_init_heap_same_setup _ _ _ S). exact Hnew. }
  { destruct S as (_ & _ & -> & _). exact Hrf. }
  rewrite Hsub, L in C2.
  fold old in C. unfold counters, account_allocate, account_free in C, C2.
  injection C as K1 K2 K3 K4. injection C2 as J1 _ _ _.
  exists st1, st2. split; [exact E|].
  split; [now rewrite K1, to_long_long_add_l|].
  split; [exact K3|]. split; [exact K4|].
  split; [now rewrite K2, K1|].
  split; [exact L|]. split; [exact E2|exact J1].
Qed.

(** Shrinking a block of 100 bytes to 40: [total] still grows by 40. *)
Lemma realloc_accounting_example :
  let st := state_of (malloc 0x1000 100 (ready_state 0x600000)) in
  exists st1 st2,
    realloc 0x3000 0x1020 40 st = Ret 0x3020 st1 /\
    counters st1 = (40, 100, 140, 2) /\
    free 0x3020 st1 = Ret tt st2 /\ curr st2 = 0.
Proof.
  intros st.
  assert (H1 : 0x1020 <> 0) by lia. assert (H2 : 40 <> 0) by lia.
  assert (H3 : is_size_t 40) by (unfold is_size_t; lia).
  assert (H4 : on_init_heap 0x1020 st = false) by (vm_compute; reflexivity).
  assert (H5 : 0x3000 <> 0) by lia.
  assert (H6 : header_at 0x3000) by (unfold header_at, alignment; lia).
  assert (H7 : on_init_heap (0x3000 + alignment) st = false)
    by (vm_compute; reflexivity).
  destruct (realloc_is_accounted_as_free_then_malloc 0x3000 0x1020 40 st
              H1 H2 H3 H4 eq_refl eq_refl H5 H6 H7)
    as (st1 & st2 & E & K1 & K2 & K3 & K4 & _ & E2 & J).
  exists st1, st2. split; [exact E|].
  assert (C1 : curr st1 = 40) by (rewrite K1; vm_compute; reflexivity).
  split; [|split; [exact E2|]].
  - unfold counters. rewrite K4, K2, K3, C1. vm_compute. reflexivity.
  - rewrite J, C1. vm_compute. reflexivity.
Defined.

(** ** What reaches the real allocator along a sequence *)

Lemma sentinel_ok_write_header_other (ret size extra hdr : Z) (m : gmap Z Z) :
  header_at ret -> header_at hdr ->
  ret + alignment <= hdr \/ hdr + alignment <= ret ->
  sentinel_ok hdr (write_header ret size extra m) = sentinel_ok hdr m.
Proof.
  intros Hr Hh Hap. unfold sentinel_ok.
  rewrite write_header_other; [reflexivity | exact Hr |].
  unfold header_at, alignment, sizeof_size_t in *.
  rewrite (ptr_add_small hdr 32), (ptr_sub_small (hdr + 32) 8)
    by (unfold is_size_t; lia).
  lia.
Qed.

Lemma run_delegates (ops : list op) :
  forall (live live' : list (Z * Z)) (st : state),
    real_malloc st = true -> real_free st = true -> callback st = 0 ->
    headers_sealed live st ->
    live_after (init_heap st) (init_heap_use st) live ops = Some live' ->
    exists st',
      run ops st = Ret tt st' /\
      headers_sealed live' st' /\
      trace st' = rev (map real_call ops) ++ trace st /\
      same_setup st st'.
Proof.
  induction ops as [|[r size|p] ops IH];
    intros live live' st Hm Hf Hcb Hinv; cbn [live_after run map rev].
  - intros [= <-]. exists st. repeat split; assumption.
  - destruct (_ && _) eqn:E; [|discriminate]. intros Hlive.
    unfold fresh_block in E. rewrite !andb_true_iff in E.
    destruct E as [[Hs0 Hs1] [[[Hr0 Hr1] H0] H]].
    assert (Hs : 0 < size < 2 ^ 64) by lia.
    assert (Hr : header_at r) by (unfold header_at; lia).
    destruct (malloc_ready r size st Hm) as (st1 & E1 & _ & Hmem & Ht & Hsame);
      [lia | lia |].
    unfold step. rewrite E1. cbn [bind].
    unfold callback_event in Ht. rewrite Hcb in Ht. cbn in Ht.
    assert (Hinv1 : headers_sealed ((r + alignment, size) :: live) st1).
    { constructor.
      - cbn [fst snd]. replace (r + alignment - alignment) with r by lia.
        destruct (header_fields r size 0 (mem st) Hr) as (L1 & L2 & L3);
          [unfold is_size_t; lia | unfold is_size_t; lia |].
        rewrite (on_init_heap_same_setup _ _ _ Hsame), Hmem.
        unfold on_init_heap. apply negb_true_iff in H0.
        rewrite ptr_add_small in L2
          by (unfold header_at, alignment, sizeof_size_t, is_size_t in *; lia).
        repeat split; try assumption; unfold is_size_t; lia.
      - unfold headers_sealed in Hinv. rewrite Forall_forall in Hinv.
        apply Forall_forall. intros b Hb.
        destruct (Hinv b Hb) as (B1 & B2 & B3 & B4 & B5 & B6).
        rewrite forallb_forall in H. specialize (H b).
        rewrite (on_init_heap_same_setup _ _ _ Hsame), Hmem.
        assert (Hap : apart r b = true) by (apply H; now apply list_elem_of_In).
        unfold apart in Hap. apply orb_prop in Hap.
        rewrite sentinel_ok_write_header_other
          by (try assumption; unfold header_at, alignment in *; lia).
        unfold header_at, alignment, sizeof_size_t in *.
        rewrite !write_header_other
          by (unfold header_at, alignment; lia).
        tauto. }
    destruct Hsame as (S1 & S2 & S3 & S4 & S5 & S6 & S7 & S8).
    destruct (IH ((r + alignment, size) :: live) live' st1) as (st' & R & I & T & S);
      [congruence | congruence | congruence | exact Hinv1 | now rewrite S5, S6 |].
    exists st'. rewrite T, Ht. cbn [real_call]. rewrite <- app_assoc.
    repeat split; try assumption.
    all: unfold same_setup in S; intuition congruence.
  - destruct (lookup_live p live) as [s|] eqn:E; [|discriminate]. intros Hlive.
    pose proof (lookup_live_In _ _ _ E) as Hin.
    unfold headers_sealed in Hinv. rewrite Forall_forall in Hinv.
    destruct (Hinv (p, s)) as (B1 & B2 & B3 & B4 & B5 & B6);
      [now apply list_elem_of_In|].
    cbn [fst snd] in *.
    assert (Hsub : ptr_sub p alignment = p - alignment).
    { apply ptr_sub_small. unfold header_at, alignment, is_size_t in *. lia. }
    destruct (free_real p st) as (st1 & E1 & _ & Hmem & Ht & Hsame);
      [unfold header_at, alignment in B2; lia | assumption | assumption |].
    rewrite Hsub, B6 in Ht.
    rewrite (ptr_add_small (p - alignment) sizeof_size_t), B5 in Ht
      by (unfold header_at, alignment, sizeof_size_t, is_size_t in *; lia).
    replace (ptr_sub (p - alignment) 0) with (p - alignment) in Ht
      by (unfold ptr_sub; rewrite Z.sub_0_r; symmetry; apply to_size_t_small;
          unfold header_at, alignment, is_size_t in *; lia).
    unfold callback_event in Ht. rewrite Hcb in Ht. cbn in Ht.
    unfold step. rewrite E1. cbn [bind].
    assert (Hinv1 : headers_sealed (remove_live p live) st1).
    { apply Forall_forall. intros b Hb.
      apply list_elem_of_In, remove_live_incl, list_elem_of_In in Hb.
      rewrite (on_init_heap_same_setup _ _ _ Hsame), Hmem.
      now apply Hinv. }
    destruct Hsame as (S1 & S2 & S3 & S4 & S5 & S6 & S7 & S8).
    destruct (IH (remove_live p live) live' st1) as (st' & R & I & T & S);
      [congruence | congruence | congruence | exact Hinv1 | now rewrite S5, S6 |].
    exists st'. rewrite T, Ht. cbn [real_call]. rewrite <- app_assoc.
    repeat split; try assumption.
    all: unfold same_setup in S; intuition congruence.
Qed.

(** X13. Along any sequence of [malloc] and [free] calls the real allocator
    can produce (as for C1), with no callback registered, the trace grows by
    exactly one event per call, in order: [real_malloc(32 + size)] for each
    [malloc(size)], and [real_free] of the very pointer the real allocator
    had answered for each [free]. Nothing else is added: no corruption line
    is printed for a block the program did not damage, and no block is
    handed to the real [free] twice or with a shifted pointer. *)
Theorem sequence_delegates_one_call_each
    (ops : list op) (live' : list (Z * Z)) (st : state) :
  real_malloc st = true -> real_free st = true -> callback st = 0 ->
  live_after (init_heap st) (init_heap_use st) [] ops = Some live' ->
  exists st',
    run ops st = Ret tt st' /\
    trace st' = rev (map real_call ops) ++ trace st.
Proof.
  intros Hm Hf Hcb Hlive.
  destruct (run_delegates ops [] live' st Hm Hf Hcb) as (st' & R & _ & T & _);
    [constructor | exact Hlive |].
  exists st'. split; assumption.
Qed.

Lemma sequence_delegates_example :
  exists st',
    run [OpMalloc 0x1000 100; OpMalloc 0x2000 50; OpFree 0x1020; OpFree 0x2020]
        (ready_state 0x600000) = Ret tt st' /\
    trace st' = [EvRealFree 0x2000; EvRealFree 0x1000;
                 EvRealMalloc 82 0x2000; EvRealMalloc 132 0x1000].
Proof.
  destruct (sequence_delegates_one_call_each
              [OpMalloc 0x1000 100; OpMalloc 0x2000 50; OpFree 0x1020;
               OpFree 0x2020] [] (ready_state 0x600000)
              eq_refl eq_refl eq_refl eq_refl) as (st' & R & T).
  exists st'. split; [exact R|exact T].
Defined.

(** The size and the sentinel of the header [malloc] writes, at the plain
    addresses. *)
Lemma malloc_header_words (r size : Z) (st : state) :
  header_at r -> is_size_t size ->
  load_size_t (write_header r size 0 (mem st)) r = size /\
  load_size_t (write_header r size 0 (mem st)) (r + alignment - sizeof_size_t)
  = sentinel.
Proof.
  intros Hh Hs.
  assert (Hz : is_size_t 0) by (unfold is_size_t; lia).
  destruct (header_fields r size 0 (mem st) Hh Hs Hz) as (L1 & _ & L3).
  split; [exact L1|].
  unfold sentinel_ok in L3. apply Z.eqb_eq in L3.
  rewrite (ptr_add_small r alignment), (ptr_sub_small (r + alignment)) in L3
    by (unfold header_at, is_size_t, alignment, sizeof_size_t in *; lia).
  exact L3.
Qed.

(** ** Requests that wrap *)

(** X12. The padded size [malloc] asks the real allocator for is not
    checked for overflow. For a [size] within [alignment] of 2^64 the sum
    [alignment + size] wraps: the real allocator is asked for
    [size + 32 - 2^64] bytes, fewer than the 32 bytes of the header, while
    the ledger accounts the whole of [size] and the full header, sentinel
    included, is stored from the pointer the real allocator answered. *)
Theorem malloc_request_wraps (r size : Z) (st : state) :
  real_malloc st = true -> callback st = 0 ->
  is_size_t size -> 2 ^ 64 - alignment <= size ->
  r <> 0 -> header_at r ->
  exists st',
    malloc r size st = Ret (r + alignment) st' /\
    trace st' = EvRealMalloc (size + alignment - 2 ^ 64) r :: trace st /\
    size + alignment - 2 ^ 64 < alignment /\
    total st' = to_long_long (total st + size) /\
    load_size_t (mem st') r = size /\
    load_size_t (mem st') (r + alignment - sizeof_size_t) = sentinel.
Proof.
  intros Hm Hcb Hsize Hbig Hr Hh.
  assert (Hs : size <> 0) by (unfold alignment in *; lia).
  destruct (malloc_ready r size st Hm Hs Hr) as (st' & E & C & M & T & _).
  assert (Ep : ptr_add r alignment = r + alignment)
    by (apply ptr_add_small; unfold header_at, is_size_t, alignment in *; lia).
  rewrite Ep in E.
  unfold callback_event in T. rewrite Hcb in T. cbn [Z.eqb app] in T.
  assert (Ew : to_size_t (alignment + size) = size + alignment - 2 ^ 64).
  { unfold to_size_t, is_size_t, alignment in *.
    replace (32 + size) with (size + 32 - 2 ^ 64 + 1 * 2 ^ 64) by lia.
    rewrite Z.mod_add by lia. apply Z.mod_small. lia. }
  rewrite Ew in T.
  assert (Hz : is_size_t 0) by (unfold is_size_t; lia).
  destruct (malloc_header_words r size st Hh Hsize) as (L1 & L3).
  rewrite <- M in L1, L3.
  exists st'. split; [exact E|]. split; [exact T|].
  split; [unfold is_size_t in Hsize; lia|].
  split; [|split; [exact L1|exact L3]].
  unfold counters, account_allocate in C. now injection C.
Qed.

Lemma malloc_request_wraps_example :
  exists st',
    malloc 0x1000 (2 ^ 64 - 1) (ready_state 0x600000) = Ret 0x1020 st' /\
    trace st' = [EvRealMalloc 31 0x1000] /\
    load_size_t (mem st') 0x1018 = 0xDEADC0DE.
Proof.
  assert (H1 : is_size_t (2 ^ 64 - 1)) by (unfold is_size_t; lia).
  assert (H2 : 2 ^ 64 - alignment <= 2 ^ 64 - 1) by (unfold alignment; lia).
  assert (H3 : 0x1000 <> 0) by lia.
  assert (H4 : header_at 0x1000) by (unfold header_at, alignment; lia).
  destruct (malloc_request_wraps 0x1000 (2 ^ 64 - 1) (ready_state 0x600000)
              eq_refl eq_refl H1 H2 H3 H4) as (st' & E & T & _ & _ & _ & L).
  exists st'. split; [exact E|]. split; [exact T|exact L].
Defined.
